(** * Hero Wars: progression model and timed status effects

    A shallow embedding of [herowars/entities.py], [herowars/configs.py]
    and [herowars/commandlib.py], with the properties of the leveling
    algorithm, the level setters, the skill dispatch, the timed effects and
    the spatial query.

    Python integers are unbounded, so they are [Z].  A Python object is a
    record of its instance attributes; a method that may raise returns an
    [Outcome], which carries the object as it is when the call ends, whether
    it returned or raised. *)

From Stdlib Require Import ZArith Lia List.
From stdpp Require Import gmap strings list sorting.
From Equations Require Import Equations.

Open Scope Z_scope.

(* The solvers of stdpp clear hypotheses by name, with a warning for each one
   that is already gone. *)
#[local] Set Warnings "-clear-no-such-hyp".

(** ** Exceptions and outcomes *)

Inductive Exn : Type :=
| ValueError (msg : string)
| TypeError (msg : string)
| Exception (name msg : string).   (* any other exception a handler raises *)

(** The result of a call on a mutable object: the object after the call, and
    whether the call returned or raised.  Python does not roll back what was
    assigned before a [raise]. *)
Inductive Outcome (S : Type) : Type :=
| Returned (s : S)
| Raised (e : Exn) (s : S).
Arguments Returned {S} s.
Arguments Raised {S} e s.

Definition state_of {S : Type} (o : Outcome S) : S :=
  match o with Returned s => s | Raised _ s => s end.

(** Sequencing: the next statement runs if the call returned; an exception
    ends the enclosing function. *)
Definition and_then {S : Type} (o : Outcome S) (k : S -> Outcome S) : Outcome S :=
  match o with Returned s => k s | Raised e s => Raised e s end.

Notation "o >>> k" := (and_then o k) (at level 61, left associativity).

(** [for x in l: f(x)] *)
Fixpoint for_each {A S : Type} (f : A -> S -> Outcome S) (l : list A) (s : S)
    : Outcome S :=
  match l with
  | [] => Returned s
  | x :: l => f x s >>> for_each f l
  end.

(** ** configs.py *)
Module Configs.

(** [def exp_algorithm(level): return 100 + level * 20] *)
Definition exp_algorithm (level : Z) : Z := 100 + level * 20.

End Configs.

(** ** entities.py *)
Module Entities.

(** An instance of [Entity] (or of a subclass): its class, named by
    [cls_id] (the class' [__name__]), and the instance attribute [_level]. *)
Record Entity : Type := mkEntity {
  cls_id : string;
  _level : Z
}.

(** [Entity.__init__(self, level=0)]: [self._level = level]. *)
Definition Entity_init (cls : string) (level : Z) : Entity :=
  {| cls_id := cls; _level := level |}.

(** The [level] property getter. *)
Definition Entity_level (self : Entity) : Z := _level self.

(** A [Skill] (a passive, an [Item]) adds no instance attribute. *)
Definition Skill : Type := Entity.

(** An instance of [Hero]: the [Entity] part, [_exp], the three owned
    collections, and the level-up event.

    [Event] comes from [herowars.tools]; of the event the model keeps the
    calls of [fire] made on [e_level_up], oldest first, each with its
    [level_gain] argument (the other argument is the hero itself). *)
Record Hero : Type := mkHero {
  entity : Entity;
  _exp : Z;
  skills : list Skill;
  passives : list Skill;
  items : list Skill;
  e_level_up : list Z
}.

Definition set_entity (e : Entity) (self : Hero) : Hero :=
  {| entity := e; _exp := _exp self; skills := skills self;
     passives := passives self; items := items self;
     e_level_up := e_level_up self |}.

Definition set__level (l : Z) (self : Hero) : Hero :=
  set_entity {| cls_id := cls_id (entity self); _level := l |} self.

Definition set__exp (x : Z) (self : Hero) : Hero :=
  {| entity := entity self; _exp := x; skills := skills self;
     passives := passives self; items := items self;
     e_level_up := e_level_up self |}.

(** [self.e_level_up.fire(self, level_gain)] *)
Definition fire_level_up (level_gain : Z) (self : Hero) : Hero :=
  {| entity := entity self; _exp := _exp self; skills := skills self;
     passives := passives self; items := items self;
     e_level_up := e_level_up self ++ [level_gain] |}.

(** [Hero.__init__(self, level=0, exp=0)].  [skill_set] and [passive_set]
    are the class' tuples of skill classes, each with its [enabled] flag;
    the hero gets one fresh instance (level 0) of every enabled one. *)
Definition Hero_init (cls : string) (skill_set passive_set : list (string * bool))
    (level exp : Z) : Hero :=
  {| entity := Entity_init cls level;
     _exp := exp;
     skills := map (fun c => Entity_init (fst c) 0)
                   (filter (fun c => snd c = true) skill_set);
     passives := map (fun c => Entity_init (fst c) 0)
                     (filter (fun c => snd c = true) passive_set);
     items := [];
     e_level_up := [] |}.

Definition Hero_level (self : Hero) : Z := Entity_level (entity self).
Definition Hero_exp (self : Hero) : Z := _exp self.

Section Leveling.

(** The class attribute [max_level] of the entity's class: 10000 for
    [Entity] and [Hero], 6 for [Skill], or what a subclass sets. *)
Variable max_level : Z.

(** The [level] setter of [Entity]. *)
Definition Entity_level_set (self : Entity) (level : Z) : Outcome Entity :=
  if level <? 0 then
    Raised (ValueError "Attempt to set a negative level for an entity.") self
  else if level >? max_level then
    Raised (ValueError "Attempt to set an entity's level over it's maximum level.")
           self
  else Returned {| cls_id := cls_id self; _level := level |}.

(** The [required_exp] property. *)
Definition required_exp (self : Hero) : Z :=
  if Hero_level self >=? max_level then 0
  else Configs.exp_algorithm (Hero_level self).

(** The [level] setter of [Hero]:
    [self._exp = 0; Entity.level.fset(self, level)]. *)
Definition Hero_level_set (self : Hero) (level : Z) : Outcome Hero :=
  let self := set__exp 0 self in
  match Entity_level_set (entity self) level with
  | Returned e => Returned (set_entity e self)
  | Raised x e => Raised x (set_entity e self)
  end.

(** The test of the [while] loop of the [exp] setter. *)
Definition can_level_up (self : Hero) : bool :=
  (Hero_exp self >=? required_exp self) && (Hero_level self <? max_level).

(** One turn of the loop:
    [self._exp -= self.required_exp; self._level += 1]. *)
Definition level_up_once (self : Hero) : Hero :=
  let self := set__exp (_exp self - required_exp self) self in
  set__level (_level (entity self) + 1) self.

(** The loop [while self.exp >= self.required_exp and self.level <
    self.max_level: ...].  Every turn brings the level one closer to
    [max_level]. *)
Equations? level_up_loop (self : Hero) : Hero
  by wf (Z.to_nat (max_level - Hero_level self)) lt :=
  level_up_loop self with Logic.inspect (can_level_up self) := {
    | exist _ true _ => level_up_loop (level_up_once self)
    | exist _ false _ => self }.
Proof.
  unfold can_level_up in e. apply andb_prop in e as [_ Hlt].
  unfold Hero_level, Entity_level in *. simpl. lia.
Qed.

(** The [exp] setter of [Hero]. *)
Definition Hero_exp_set (self : Hero) (exp : Z) : Outcome Hero :=
  if exp <? 0 then
    Raised (ValueError "Attempt to set negative exp for a hero.") self
  else if Hero_level self >=? max_level then
    Returned (set__exp 0 self)
  else if negb (exp =? _exp self) then
    let self := set__exp exp self in
    let old_lvl := Hero_level self in
    let self := level_up_loop self in
    let self :=
      if Hero_level self >=? max_level
      then set__exp 0 (set__level max_level self)
      else self in
    let self :=
      if Hero_level self >? old_lvl
      then fire_level_up (Hero_level self - old_lvl) self
      else self in
    Returned self
  else Returned self.

(** *** The conversion in the specification's words

    [requiredExp] is the curve of the specification: the default
    [100 + level*20], and 0 once the level is the maximum.  [converts exp
    level exp' level'] says that the loop "while [exp >= requiredExp(level)]
    and [level < maxLevel]: subtract [requiredExp(level)] from [exp],
    increment [level] by 1" started on [(exp, level)] ends on
    [(exp', level')]. *)
Definition requiredExp (level : Z) : Z :=
  if level =? max_level then 0 else 100 + level * 20.

Inductive converts : Z -> Z -> Z -> Z -> Prop :=
| converts_stop exp level :
    ~ (requiredExp level <= exp /\ level < max_level) ->
    converts exp level exp level
| converts_step exp level exp' level' :
    requiredExp level <= exp -> level < max_level ->
    converts (exp - requiredExp level) (level + 1) exp' level' ->
    converts exp level exp' level'.

(** The hero the specification has the [exp] setter leave, when the
    conversion ends on [(exp1, level1)]: clamped at the maximum level, and
    the event fired once with the gain if the level rose. *)
Definition leveled (self : Hero) (exp1 level1 : Z) : Hero :=
  let final_level := if level1 >=? max_level then max_level else level1 in
  let final_exp := if level1 >=? max_level then 0 else exp1 in
  {| entity := {| cls_id := cls_id (entity self); _level := final_level |};
     _exp := final_exp;
     skills := skills self; passives := passives self; items := items self;
     e_level_up :=
       e_level_up self ++
       (if final_level >? Hero_level self
        then [final_level - Hero_level self] else []) |}.

(** *** Sequences of assignments *)

(** [e.level = l] for each [l] of [levels] in turn, going on after an
    assignment that raised (the caller caught the error). *)
Definition assign_levels (self : Entity) (levels : list Z) : Entity :=
  fold_left (fun e l => state_of (Entity_level_set e l)) levels self.

Inductive Mutation : Type :=
| AssignLevel (level : Z)   (* hero.level = level *)
| AssignExp (exp : Z).      (* hero.exp = exp *)

Definition mutate1 (self : Hero) (m : Mutation) : Hero :=
  match m with
  | AssignLevel l => state_of (Hero_level_set self l)
  | AssignExp x => state_of (Hero_exp_set self x)
  end.

Definition mutate (self : Hero) (ms : list Mutation) : Hero :=
  fold_left mutate1 ms self.

End Leveling.

(** What the loop of the [exp] setter leaves alone. *)
Definition same_owner (a b : Hero) : Prop :=
  cls_id (entity a) = cls_id (entity b) /\ skills a = skills b /\
  passives a = passives b /\ items a = items b /\
  e_level_up a = e_level_up b.

(** *** Dispatch of events to skills

    A handler is a function of a skill class, called with [self] and the
    keyword arguments of the event; it acts on the game ([St]: the players,
    the chat, the timers) and may raise.  The classes of the program are
    given by [getattr]: [getattr cls name] is what Python's
    [getattr(cls, name, None)] finds on the class named [cls], with its base
    classes: a function, any other value (of which only the truth value
    matters here), or nothing. *)
Section Dispatch.

Context {St EArgs : Type}.

Inductive Attr : Type :=
| AFunction (f : Skill -> EArgs -> St -> Outcome St)
| AValue (truth : bool).

Variable getattr : string -> string -> option Attr.

(** [if method:] with [None] for a missing attribute. *)
Definition truthy (method : option Attr) : bool :=
  match method with
  | None => false
  | Some (AFunction _) => true
  | Some (AValue b) => b
  end.

(** [method(self, **eargs)] *)
Definition call (method : option Attr) (self : Skill) (eargs : EArgs) (st : St)
    : Outcome St :=
  match method with
  | Some (AFunction f) => f self eargs st
  | _ => Raised (TypeError "object is not callable") st
  end.

(** [Skill.execute_method(self, method_name, **eargs)] *)
Definition execute_method (self : Skill) (method_name : string) (eargs : EArgs)
    (st : St) : Outcome St :=
  let method := getattr (cls_id self) method_name in
  if truthy method then call method self eargs st else Returned st.

(** [Hero.execute_skills(self, method_name, **eargs)] *)
Definition execute_skills (self : Hero) (method_name : string) (eargs : EArgs)
    (st : St) : Outcome St :=
  for_each (fun passive => execute_method passive method_name eargs)
           (passives self) st >>>
  for_each (fun skill st =>
              if negb (Entity_level skill =? 0)     (* if skill.level: *)
              then execute_method skill method_name eargs st
              else Returned st)
           (skills self) >>>
  for_each (fun item => execute_method item method_name eargs) (items self).

(** The type defines a handler of that name. *)
Definition defines_handler (cls name : string) : Prop :=
  exists f, getattr cls name = Some (AFunction f).


(** The same with the test the code makes on the level. *)
Definition targets (self : Hero) : list Skill :=
  passives self ++ filter (fun skill => Entity_level skill <> 0) (skills self)
    ++ items self.

End Dispatch.

(** *** Experience thresholds *)

(** The exp it takes to go up [n] levels from [level]: the sum of
    [exp_algorithm] over the levels left behind. *)
Fixpoint threshold_sum (level : Z) (n : nat) : Z :=
  match n with
  | O => 0
  | S n => Configs.exp_algorithm level + threshold_sum (level + 1) n
  end.

(** *** Skill points *)
Section SkillPoints.

(** The class attribute [cost] of the class of a given name: 1 for [Skill],
    10 for [Item], or what a subclass sets. *)
Variable cost : string -> Z.

(** [sum(skill.level * skill.cost for skill in self.skills)] *)
Definition used_points (skills : list Skill) : Z :=
  fold_left (fun acc skill => acc + Entity_level skill * cost (cls_id skill))
            skills 0.

(** The [skill_points] property. *)
Definition skill_points (self : Hero) : Z :=
  _level (entity self) - used_points (skills self).

End SkillPoints.

(** [hero.skills[i].level = level], for an index [i] counted from 0:
    [IndexError] past the end of the list, and else the [level] setter of
    the skill, with the [max_level] of its class. *)
Definition set_skill_level (max_level_of : string -> Z) (i : nat) (level : Z)
    (self : Hero) : Outcome Hero :=
  match skills self !! i with
  | None => Raised (Exception "IndexError" "list index out of range") self
  | Some skill =>
      match Entity_level_set (max_level_of (cls_id skill)) skill level with
      | Returned skill' =>
          Returned {| entity := entity self; _exp := _exp self;
                      skills := <[i := skill']> (skills self);
                      passives := passives self; items := items self;
                      e_level_up := e_level_up self |}
      | Raised e _ => Raised e self
      end
  end.

(** *** What a program does to a hero *)


Section Operations.

(** The [max_level] of the hero's class, and of the skill classes by name. *)
Variable max_level : Z.
Variable max_level_of : string -> Z.



End Operations.

End Entities.

(** ** commandlib.py *)
Module Commandlib.

(** A player of the game server, as far as this module looks at it: the
    object is named by its [userid] and its [index]. *)
Record Player : Type := mkPlayer {
  userid : Z;
  index : Z
}.

#[export] Instance Player_eq_dec : EqDecision Player.
Proof. solve_decision. Defined.

#[export] Instance Player_countable : Countable Player :=
  inj_countable' (fun p => (userid p, index p)) (fun '(u, i) => mkPlayer u i)
                 (fun p => match p with mkPlayer _ _ => eq_refl end).

(** *** Timed effects *)

(** The keys of [_effects]: the first four names of [__all__]. *)
Inductive Kind : Type := Burn | Freeze | Noclip | Jetpack.

#[export] Instance Kind_eq_dec : EqDecision Kind.
Proof. solve_decision. Defined.

(** What the module does to a player of the game server. *)
Inductive Action : Type :=
| CallInput (player : Player) (name : string) (args : list Z)
    (* player.call_input(name, *args) *)
| SetAttr (player : Player) (attr : string) (value : bool)
    (* player.attr = value *)
| SetPropertyFloat (player : Player) (name value : string).
    (* player.set_property_float(name, value), the float as it is written *)

(** A delay object of the tick scheduler: the delay in seconds, the
    callback (one of the four [_un...] functions, named by its kind) and its
    [args], unset until [delay.args = (player, delay)]. *)
Record Delay : Type := mkDelay {
  seconds : Z;
  callback : Kind;
  args : option (Player * nat)
}.

(** The state the module works on:
    - [_effects]: for each kind a [defaultdict(set)] from [player.index] to
      the set of the delay objects held for that player;
    - [delays]: the delay objects [tick_delays.delay] has made, oldest
      first; a delay object is named by its position in this list, so that
      every new one is a new name;
    - [engine]: what was done to the players, oldest first. *)
Record World : Type := mkWorld {
  _effects : Kind -> gmap Z (gset nat);
  delays : list Delay;
  engine : list Action
}.

Definition empty_world : World :=
  {| _effects := fun _ => ∅; delays := []; engine := [] |}.

(** [_effects[kind][player.index]]; a [defaultdict] gives the empty set for
    a missing key. *)
Definition active_set (kind : Kind) (player : Player) (w : World) : gset nat :=
  default ∅ (_effects w kind !! index player).

(** [_effects[kind][player.index] = s] (the entry a [defaultdict] makes on
    the first access stays in the dictionary). *)
Definition set_active (kind : Kind) (player : Player) (s : gset nat) (w : World)
    : World :=
  {| _effects := fun k =>
       if decide (k = kind) then <[index player := s]> (_effects w k)
       else _effects w k;
     delays := delays w;
     engine := engine w |}.

(** [_effects[kind][player.index].add(delay)] *)
Definition effects_add (kind : Kind) (player : Player) (delay : nat) (w : World)
    : World :=
  set_active kind player (active_set kind player w ∪ {[delay]}) w.

(** [_effects[kind][player.index].discard(delay)] *)
Definition effects_discard (kind : Kind) (player : Player) (delay : nat)
    (w : World) : World :=
  set_active kind player (active_set kind player w ∖ {[delay]}) w.

Definition act (a : Action) (w : World) : World :=
  {| _effects := _effects w; delays := delays w; engine := engine w ++ [a] |}.

(** [tick_delays.delay(seconds, callback)]: a new delay object. *)
Definition tick_delays_delay (seconds : Z) (callback : Kind) (w : World)
    : nat * World :=
  (length (delays w),
   {| _effects := _effects w;
      delays := delays w ++ [mkDelay seconds callback None];
      engine := engine w |}).

(** [delay.args = a] *)
Definition set_args (delay : nat) (a : Player * nat) (w : World) : World :=
  {| _effects := _effects w;
     delays := alter (fun d => mkDelay (seconds d) (callback d) (Some a)) delay
                     (delays w);
     engine := engine w |}.

(** [def _unburn(player, delay)] *)
Definition _unburn (player : Player) (delay : nat) (w : World) : World :=
  let w := effects_discard Burn player delay w in
  if decide (active_set Burn player w = ∅)
  then act (CallInput player "IgniteLifetime" [0]) w
  else w.

(** [def _unfreeze(player, delay)] *)
Definition _unfreeze (player : Player) (delay : nat) (w : World) : World :=
  let w := effects_discard Freeze player delay w in
  if decide (active_set Freeze player w = ∅)
  then act (SetAttr player "freeze" false) w
  else w.

(** [def _unnoclip(player, delay)] *)
Definition _unnoclip (player : Player) (delay : nat) (w : World) : World :=
  let w := effects_discard Noclip player delay w in
  if decide (active_set Noclip player w = ∅)
  then act (SetAttr player "noclip" false) w
  else w.

(** [def _unjetpack(player, delay)] *)
Definition _unjetpack (player : Player) (delay : nat) (w : World) : World :=
  let w := effects_discard Jetpack player delay w in
  if decide (active_set Jetpack player w = ∅)
  then act (SetAttr player "jetpack" false) w
  else w.

(** The callback of a kind, as the scheduler calls it when a timer fires:
    the callback applied to its [args], [(player, delay)]. *)
Definition expire (kind : Kind) : Player -> nat -> World -> World :=
  match kind with
  | Burn => _unburn
  | Freeze => _unfreeze
  | Noclip => _unnoclip
  | Jetpack => _unjetpack
  end.

Section Effects.

(** [burn] and [freeze] end with [delay()], a call of the delay object
    itself; [noclip] and [jetpack] do not.  What that call does is the
    scheduler's business: [delay_call_runs] says whether it runs the
    callback of the delay with its [args] there and then, or leaves the
    state of this module alone. *)
Variable delay_call_runs : bool.

(** [delay()] *)
Definition call_delay (delay : nat) (w : World) : World :=
  if delay_call_runs then
    match delays w !! delay with
    | Some (mkDelay _ kind (Some (player, d))) => expire kind player d w
    | _ => w
    end
  else w.

(** [def burn(player, duration)] *)
Definition burn (player : Player) (duration : Z) (w : World) : World :=
  let w := act (CallInput player "Ignite" []) w in
  let '(delay, w) := tick_delays_delay duration Burn w in
  let w := set_args delay (player, delay) w in
  let w := effects_add Burn player delay w in
  call_delay delay w.

(** [def freeze(player, duration)] *)
Definition freeze (player : Player) (duration : Z) (w : World) : World :=
  let w := act (SetAttr player "freeze" true) w in
  let '(delay, w) := tick_delays_delay duration Freeze w in
  let w := set_args delay (player, delay) w in
  let w := effects_add Freeze player delay w in
  call_delay delay w.

(** [def noclip(player, duration)] *)
Definition noclip (player : Player) (duration : Z) (w : World) : World :=
  let w := act (SetAttr player "noclip" true) w in
  let '(delay, w) := tick_delays_delay duration Noclip w in
  let w := set_args delay (player, delay) w in
  effects_add Noclip player delay w.

(** [def jetpack(player, duration)] *)
Definition jetpack (player : Player) (duration : Z) (w : World) : World :=
  let w := act (SetAttr player "jetpack" true) w in
  let '(delay, w) := tick_delays_delay duration Jetpack w in
  let w := set_args delay (player, delay) w in
  effects_add Jetpack player delay w.

(** The function that applies a kind. *)
Definition apply (kind : Kind) : Player -> Z -> World -> World :=
  match kind with
  | Burn => burn
  | Freeze => freeze
  | Noclip => noclip
  | Jetpack => jetpack
  end.

(** Whether applying the kind runs its callback before it returns. *)
Definition runs_now (kind : Kind) : bool :=
  match kind with
  | Burn | Freeze => delay_call_runs
  | Noclip | Jetpack => false
  end.

(** The kind applied once for each duration of [durations], in turn. *)
Definition apply_all (kind : Kind) (player : Player) (durations : list Z)
    (w : World) : World :=
  fold_left (fun w duration => apply kind player duration w) durations w.

End Effects.

(** The engine-level action that applies a kind, and the one that reverts it. *)
Definition on_apply (kind : Kind) (player : Player) : Action :=
  match kind with
  | Burn => CallInput player "Ignite" []
  | Freeze => SetAttr player "freeze" true
  | Noclip => SetAttr player "noclip" true
  | Jetpack => SetAttr player "jetpack" true
  end.

Definition on_revert (kind : Kind) (player : Player) : Action :=
  match kind with
  | Burn => CallInput player "IgniteLifetime" [0]
  | Freeze => SetAttr player "freeze" false
  | Noclip => SetAttr player "noclip" false
  | Jetpack => SetAttr player "jetpack" false
  end.

(** The world after the statements the four functions share: all of
    [noclip] and [jetpack], and [burn] and [freeze] up to the [delay()] that
    ends them. *)
Definition scheduled (kind : Kind) (player : Player) (duration : Z) (w : World)
    : World :=
  let w := act (on_apply kind player) w in
  let '(delay, w) := tick_delays_delay duration kind w in
  let w := set_args delay (player, delay) w in
  effects_add kind player delay w.

(** The timers of [fired] fire one after the other. *)
Definition fire_all (kind : Kind) (player : Player) (fired : list nat) (w : World)
    : World :=
  fold_left (fun w delay => expire kind player delay w) fired w.

(** *** Players near a point *)

(** The calls of [Vector.get_distance] are counted: a computation gives its
    value and the number of distances it computed. *)
Definition Counted (A : Type) : Type := A * nat.

Definition count_ret {A : Type} (x : A) : Counted A := (x, 0%nat).

Definition count_bind {A B : Type} (m : Counted A) (f : A -> Counted B)
    : Counted B :=
  let '(x, n) := m in
  let '(y, k) := f x in
  (y, (n + k)%nat).

Notation "'let*' x ':=' m 'in' k" := (count_bind m (fun x => k))
  (at level 10, x name, m at level 100, k at level 200, only parsing).

Fixpoint count_map {A B : Type} (f : A -> Counted B) (l : list A)
    : Counted (list B) :=
  match l with
  | [] => count_ret []
  | x :: l =>
      let* y := f x in
      let* ys := count_map f l in
      count_ret (y :: ys)
  end.

Section Spatial.

(** [mathlib.Vector] and the numbers its [get_distance] returns, with their
    order [<=]; the players of the server and where they are come from
    outside this module too:
    - [location player] is [player.location];
    - [PlayerIter is_filters not_filters] is the list of userids
      [PlayerIter(is_filters=..., not_filters=..., return_types='userid')]
      goes through;
    - [get_player userid] is [herowars.player.get_player(userid)];
    - [set_order s] is the order in which Python goes through the set [s]. *)
Context {Vector D : Type}.
Variable le : relation D.
Context `{!RelDecision le}.
Variable get_distance : Vector -> Vector -> D.
Variable location : Player -> Vector.
Variable PlayerIter : string -> string -> list Z.
Variable get_player : Z -> Player.
Variable set_order : gset Player -> list Player.

(** [vector.get_distance(player.location)], one call. *)
Definition distance_to (vector : Vector) (player : Player) : Counted D :=
  (get_distance vector (location player), 1%nat).

(** The [for] loop of [get_nearby_players], over the userids left. *)
Fixpoint collect (vector : Vector) (radius : D) (userids : list Z)
    (players : gset Player) : Counted (gset Player) :=
  match userids with
  | [] => count_ret players
  | userid :: userids =>
      let player := get_player userid in
      let* d := distance_to vector player in
      collect vector radius userids
        (if decide (le d radius) then players ∪ {[player]} else players)
  end.

(** Insertion of an element with its key into a list sorted by key, before
    the first element whose key is not smaller. *)
Fixpoint insert_keyed {A : Type} (kx : D * A) (l : list (D * A))
    : list (D * A) :=
  match l with
  | [] => [kx]
  | ky :: l' =>
      if decide (le (fst kx) (fst ky)) then kx :: ky :: l'
      else ky :: insert_keyed kx l'
  end.

Definition sort_keyed {A : Type} (l : list (D * A)) : list (D * A) :=
  foldr insert_keyed [] l.

(** An element with its key. *)
Definition keyed {A : Type} (key : A -> D) (x : A) : D * A := (key x, x).

(** [sorted(l, key=key)]: the key of every element is computed once, and
    the sort is stable.  A stable sort has one result, whatever the
    algorithm; here it is an insertion sort. *)
Definition sorted {A : Type} (key : A -> Counted D) (l : list A)
    : Counted (list A) :=
  let* keyed := count_map (fun x => let* d := key x in count_ret (d, x)) l in
  count_ret (map snd (sort_keyed keyed)).

(** [def get_nearby_players(point, radius, is_filters='alive',
    not_filters='')] *)
Definition get_nearby_players (point : Vector) (radius : D)
    (is_filters not_filters : string) : Counted (list Player) :=
  let vector := point in
  let* players :=
    collect vector radius (PlayerIter is_filters not_filters) ∅ in
  sorted (fun p => distance_to vector p) (set_order players).

End Spatial.

(** A server with three players, 50, 150 and 10 away from the origin, and the
    distance of two points with whole coordinates, rounded down. *)
Definition example_location (player : Player) : Z * Z * Z :=
  if userid player =? 1 then (30, 40, 0)
  else if userid player =? 2 then (150, 0, 0)
  else (0, 0, 10).

Definition example_distance (a b : Z * Z * Z) : Z :=
  let '(x, y, z) := a in
  let '(x', y', z') := b in
  Z.sqrt ((x - x') ^ 2 + (y - y') ^ 2 + (z - z') ^ 2).

Definition example_players (is_filters not_filters : string) : list Z := [1; 2; 3].

Definition example_player (userid : Z) : Player := mkPlayer userid userid.

(** *** Runs of the timed effects *)

#[export] Instance Action_eq_dec : EqDecision Action.
Proof. solve_decision. Defined.

(** The scheduler runs a delay whose time has come: the callback of the
    delay, applied to its [args]. *)
Definition fire_delay (delay : nat) (w : World) : World :=
  match delays w !! delay with
  | Some (mkDelay _ kind (Some (player, d))) => expire kind player d w
  | _ => w
  end.

(** What happens to the module, one thing after the other. *)
Inductive Event : Type :=
| Apply (kind : Kind) (player : Player) (duration : Z)
    (* burn(player, duration), freeze(...), noclip(...), jetpack(...) *)
| Call (kind : Kind) (player : Player) (delay : nat)
    (* _unburn(player, delay), ... called with any arguments *)
| Due (delay : nat).
    (* the scheduler runs the delay *)

Section Runs.

Variable delay_call_runs : bool.

Definition step (w : World) (e : Event) : World :=
  match e with
  | Apply kind player duration => apply delay_call_runs kind player duration w
  | Call kind player delay => expire kind player delay w
  | Due delay => fire_delay delay w
  end.

Definition run (events : list Event) (w : World) : World :=
  fold_left step events w.

End Runs.

(** The player an action is done to. *)
Definition player_of (a : Action) : Player :=
  match a with
  | CallInput player _ _ => player
  | SetAttr player _ _ => player
  | SetPropertyFloat player _ _ => player
  end.

(** What an action does to the effect of a kind on the player of a given
    index: it turns it on, turns it off, or is about something else. *)
Definition toggles (kind : Kind) (idx : Z) (a : Action) : option bool :=
  if decide (index (player_of a) = idx) then
    if decide (a = on_apply kind (player_of a)) then Some true
    else if decide (a = on_revert kind (player_of a)) then Some false
    else None
  else None.

(** Whether the effect is on in the game, after the actions of [log]: the
    last action about it says. *)
Definition engine_state (kind : Kind) (idx : Z) (log : list Action) : bool :=
  fold_left (fun on a => default on (toggles kind idx a)) log false.

(** The effect is on in the game exactly for the players that hold a timer. *)
Definition in_step (w : World) : Prop :=
  forall kind player,
    engine_state kind (index player) (engine w)
    = bool_decide (active_set kind player w <> ∅).

(** The delays and the sets agree: every delay made holds the arguments
    [(player, delay)], naming itself, and a delay in the set of a kind and a
    player is a delay made for that kind and for a player of that index. *)
Definition consistent (w : World) : Prop :=
  (forall delay e,
      delays w !! delay = Some e -> exists player, args e = Some (player, delay)) /\
  (forall kind player delay,
      delay ∈ active_set kind player w ->
      exists seconds player',
        delays w !! delay = Some (mkDelay seconds kind (Some (player', delay))) /\
        index player' = index player).

(** *** Shifting a property *)

(** The properties [shiftprop] works on hold numbers, of a type [Num]: whole
    numbers for some (health, cash), floats for others (speed, gravity).  A
    delay made by [shiftprop]:
    [tick_delays.delay(duration, shiftprop, player, prop, -shift)]. *)
Record Shift (Num : Type) : Type := mkShift {
  shift_seconds : Z;
  shift_player : Player;
  shift_prop : string;
  shift_by : Num
}.
Arguments mkShift {Num} _ _ _ _.
Arguments shift_seconds {Num} _.
Arguments shift_player {Num} _.
Arguments shift_prop {Num} _.
Arguments shift_by {Num} _.

(** The numeric attributes of the players, by player and name, and the
    delays [shiftprop] has made, oldest first. *)
Record Props (Num : Type) : Type := mkProps {
  attrs : gmap (Player * string) Num;
  shifts : list (Shift Num)
}.
Arguments mkProps {Num} _ _.
Arguments attrs {Num} _.
Arguments shifts {Num} _.

Section Shifting.

Context {Num : Type}.

(** Python's [x + y] and [-x] on these numbers.  Nothing is assumed of
    them: on floats [x + s + (-s)] need not be [x], and [+] is not
    associative. *)
Variable add : Num -> Num -> Num.
Variable neg : Num -> Num.

(** As for [burn]: whether calling a delay object runs its callback. *)
Variable delay_call_runs : bool.

(** [setattr(player, prop, getattr(player, prop) + shift)] *)
Definition shift_attr (player : Player) (prop : string) (shift : Num)
    (w : Props Num) : Outcome (Props Num) :=
  match attrs w !! (player, prop) with
  | None => Raised (Exception "AttributeError" prop) w
  | Some value =>
      Returned {| attrs := <[(player, prop) := add value shift]> (attrs w);
                  shifts := shifts w |}
  end.

(** [def shiftprop(player, prop, shift, duration=0)].  The delay is called
    as soon as it is made, [tick_delays.delay(...)()]; its callback is
    [shiftprop(player, prop, -shift)], with the default [duration] of 0. *)
Definition shiftprop (player : Player) (prop : string) (shift : Num)
    (duration : Z) (w : Props Num) : Outcome (Props Num) :=
  shift_attr player prop shift w >>> fun w =>
  if negb (duration =? 0) then
    let w := {| attrs := attrs w;
                shifts := shifts w ++ [mkShift duration player prop (neg shift)] |} in
    if delay_call_runs then shift_attr player prop (neg shift) w
    else Returned w
  else Returned w.

(** The scheduler runs a delay of [shiftprop]: the callback
    [shiftprop(player, prop, -shift)], which makes no delay of its own. *)
Definition fire_shift (delay : nat) (w : Props Num) : Outcome (Props Num) :=
  match shifts w !! delay with
  | Some sh => shift_attr (shift_player sh) (shift_prop sh) (shift_by sh) w
  | None => Returned w
  end.

End Shifting.

End Commandlib.

(** ** entities.py: the enabled subclasses *)
Module Registry.
Import Commandlib.

(** A class of entities, as far as [get_subclasses] looks at it: its
    [__name__] and its class attributes [name] and [enabled]. *)
Record Class : Type := mkClass {
  cls_name : string;
  name : string;
  enabled : bool
}.

Section Subclasses.

(** [herowars.tools.get_subclasses(cls)]: the classes derived from [cls], in
    the order it finds them. *)
Variable tools_get_subclasses : Class -> list Class.

(** [Entity.get_subclasses(cls)]: [sorted((subcls for subcls in
    get_subclasses(cls) if subcls.enabled), key=lambda subcls: subcls.name)].
    Python orders strings by code point, which is the order of their bytes
    in UTF-8, [String.le]. *)
Definition get_subclasses (cls : Class) : list Class :=
  map snd
    (sort_keyed String.le
       (map (keyed name)
            (filter (fun subcls => enabled subcls = true)
                    (tools_get_subclasses cls)))).

End Subclasses.

(** *** The skill sets of the hero classes *)

(** The two class attributes the decorators of [Hero] work on. *)
Inductive SetName : Type := SkillSet | PassiveSet.

#[export] Instance SetName_eq_dec : EqDecision SetName.
Proof. solve_decision. Defined.

#[export] Instance SetName_countable : Countable SetName :=
  inj_countable' (fun a => match a with SkillSet => true | PassiveSet => false end)
                 (fun b : bool => if b then SkillSet else PassiveSet)
                 (fun a => match a with SkillSet | PassiveSet => eq_refl end).

(** The classes, as far as the decorators look at them: what each class,
    named by its [__name__], holds of the two attributes in its own
    [__dict__], a tuple of skill classes.  [Hero] holds [tuple()] for both. *)
Definition Classes : Type := gmap (string * SetName) (list string).

(** The first class of a list of classes that holds the attribute itself. *)
Fixpoint first_own (attr : SetName) (classes : Classes) (l : list string)
    : option (list string) :=
  match l with
  | [] => None
  | c :: l =>
      match classes !! (c, attr) with
      | Some v => Some v
      | None => first_own attr classes l
      end
  end.

Section Decorators.

(** [cls.__mro__]: the class, then the classes it derives from, nearest
    first. *)
Variable mro : string -> list string.

(** [cls.skill_set], [cls.passive_set]: the attribute as the first class of
    the [__mro__] that holds it has it. *)
Definition class_getattr (attr : SetName) (classes : Classes) (cls : string)
    : option (list string) :=
  first_own attr classes (mro cls).

(** [cls.attr += (skill_class, )]: the attribute is read through the
    [__mro__], the tuple with [skill_class] at its end is a new one, and it
    is stored on [cls] itself. *)
Definition append_to (attr : SetName) (cls skill_class : string)
    (classes : Classes) : Outcome Classes :=
  match class_getattr attr classes cls with
  | None => Raised (Exception "AttributeError" "type object has no attribute") classes
  | Some v => Returned (<[(cls, attr) := v ++ [skill_class]]> classes)
  end.

(** The decorator [Hero.skill]; it returns [skill_class] as it got it. *)
Definition skill (cls skill_class : string) (classes : Classes) : Outcome Classes :=
  append_to SkillSet cls skill_class classes.

(** The decorator [Hero.passive]. *)
Definition passive (cls skill_class : string) (classes : Classes)
    : Outcome Classes :=
  append_to PassiveSet cls skill_class classes.

(** The decorator that works on an attribute. *)
Definition decorator (attr : SetName) : string -> string -> Classes -> Outcome Classes :=
  match attr with
  | SkillSet => skill
  | PassiveSet => passive
  end.

End Decorators.

End Registry.

(** ** heroes/test.py *)
Module TestHero.
Import Entities.

(** The chat: the messages sent by [cmdlib.tell(player, message)], oldest
    first, each with the index of the player it went to. *)
Definition Chat : Type := list (Z * string).

(** The keyword arguments of an event, as far as the handlers below look at
    them: the players it names ([player], [attacker], [defender]). *)
Definition EventArgs : Type := gmap string Commandlib.Player.

(** [attacker] is player 1, [defender] player 2. *)
Definition attack : EventArgs :=
  {[ "attacker"%string := Commandlib.mkPlayer 1 1;
     "defender"%string := Commandlib.mkPlayer 2 2 ]}.

(** The game as the handlers see it: the state of [commandlib], with what
    was done to the players, and the chat. *)
Record Game : Type := mkGame {
  world : Commandlib.World;
  chat : Chat
}.

(** [cmdlib.tell(player, message)] *)
Definition tell (player : Commandlib.Player) (message : string) (g : Game) : Game :=
  {| world := world g; chat := chat g ++ [(Commandlib.index player, message)] |}.

(** [Damage.on_attack(self, attacker, defender, **eargs)]:
    [cmdlib.tell(defender, 'You dealt 2x damage!')]. *)
Definition Damage_on_attack (self : Skill) (eargs : EventArgs) (g : Game)
    : Outcome Game :=
  match eargs !! "attacker"%string, eargs !! "defender"%string with
  | Some _, Some defender => Returned (tell defender "You dealt 2x damage!" g)
  | _, _ => Raised (TypeError "missing required positional argument") g
  end.

(** [HealthSpeed.on_spawn(self, player, **eargs)] *)
Definition HealthSpeed_on_spawn (self : Skill) (eargs : EventArgs) (g : Game)
    : Outcome Game :=
  match eargs !! "player"%string with
  | Some player =>
      let g := {| world := Commandlib.act
                             (Commandlib.SetPropertyFloat player
                                "m_flLaggedMovementValue" "1.3")
                             (world g);
                  chat := chat g |} in
      Returned (tell player "+30% speed from Passive." g)
  | None => Raised (TypeError "missing required positional argument") g
  end.

(** [Entity.__init__(self, level=0)] called as a handler: any keyword but
    [level] is a [TypeError]; else it assigns [self._level], which is no
    part of the game. *)
Definition Entity___init__ (self : Skill) (eargs : EventArgs) (g : Game)
    : Outcome Game :=
  if bool_decide (dom eargs ⊆ ({["level"%string]} : gset string))
  then Returned g
  else Raised (TypeError "__init__() got an unexpected keyword argument") g.

(** [Skill.execute_method(self, method_name, **eargs)] called as a handler:
    [method_name] is missing, or it is one of the players, which is no
    string for [getattr]. *)
Definition Skill_execute_method (self : Skill) (eargs : EventArgs) (g : Game)
    : Outcome Game :=
  match eargs !! "method_name"%string with
  | None => Raised (TypeError "missing required positional argument") g
  | Some _ => Raised (TypeError "attribute name must be string") g
  end.

(** [Entity.get_subclasses], a class method, called as a handler: [self]
    is one positional argument too many. *)
Definition Entity_get_subclasses (self : Skill) (eargs : EventArgs) (g : Game)
    : Outcome Game :=
  Raised (TypeError "get_subclasses() takes 1 positional argument") g.

Section Spawn.

Variable delay_call_runs : bool.

(** [PlayerIter(is_filters=..., return_types='userid')]: the userids of the
    players that pass the filters. *)
Variable PlayerIter : list string -> list Z.

(** [get_player(userid)]: the player, or nothing. *)
Variable get_player : Z -> option Commandlib.Player.

(** [player.team] *)
Variable team : Commandlib.Player -> Z.

(** [Ignite.on_spawn(self, player, **eargs)] *)
Definition Ignite_on_spawn (self : Skill) (player : Commandlib.Player) (g : Game)
    : Game :=
  let target_team := if team player =? 2 then "ct"%string else "t"%string in
  let g :=
    fold_left
      (fun g userid =>
         match get_player userid with
         | Some target =>
             let g := {| world := Commandlib.burn delay_call_runs target
                                    (2 + Entity_level self) (world g);
                         chat := chat g |} in
             tell target "You were burned!" g
         | None => g
         end)
      (PlayerIter ["alive"%string; target_team]) g in
  tell player "You burned your enemies!" g.

(** [Ignite.on_spawn] as [execute_method] calls it, [player] among the
    keyword arguments. *)
Definition Ignite_on_spawn_handler (self : Skill) (eargs : EventArgs) (g : Game)
    : Outcome Game :=
  match eargs !! "player"%string with
  | Some player => Returned (Ignite_on_spawn self player g)
  | None => Raised (TypeError "missing required positional argument") g
  end.

(** *** The attributes of the skill classes

    What the class statements under [src/] bind in each class: a function,
    or a value of which [execute_method] sees the truth ([AValue true]: a
    string that is not empty, a number that is not 0, [True], a property
    object; [AValue false]: 0, [False], [tuple()], [None]).  A class with
    no docstring has [__doc__ = None] of its own. *)

(** What two decorators of [herowars.tools], a module that is not here,
    make of the functions they decorate: [HealthSpeed.on_attack] is
    [chance(33)(...)] and [Noclip.on_ultimate] is [cooldownf(...)(...)]. *)
Variable HealthSpeed_on_attack : @Attr Game EventArgs.
Variable Noclip_on_ultimate : @Attr Game EventArgs.

(** What Python finds for a name that no class statement binds: the
    attributes of [object] and of [type], and those a class statement adds
    itself ([__module__], [__qualname__], ...). *)
Variable builtins : string -> string -> option (@Attr Game EventArgs).

Definition Entity_dict : gmap string (@Attr Game EventArgs) :=
  list_to_map
    [("__doc__"%string, AValue true);
     ("name"%string, AValue true);            (* 'Unnamed Entity' *)
     ("description"%string, AValue true);     (* 'This is an entity.' *)
     ("authors"%string, AValue true);         (* 'Unknown' *)
     ("cost"%string, AValue false);           (* 0 *)
     ("max_level"%string, AValue true);       (* 10000 *)
     ("enabled"%string, AValue true);         (* True *)
     ("allowed_users"%string, AValue false);  (* tuple() *)
     ("cls_id"%string, AValue true);          (* the name of the class *)
     ("__init__"%string, AFunction Entity___init__);
     ("level"%string, AValue true);           (* a property *)
     ("get_subclasses"%string, AFunction Entity_get_subclasses)].

Definition Skill_dict : gmap string (@Attr Game EventArgs) :=
  list_to_map
    [("__doc__"%string, AValue true);
     ("name"%string, AValue true);            (* 'Unnamed Skill' *)
     ("description"%string, AValue true);     (* 'This is a skill.' *)
     ("cost"%string, AValue true);            (* 1 *)
     ("max_level"%string, AValue true);       (* 6 *)
     ("required_level"%string, AValue false); (* 0 *)
     ("execute_method"%string, AFunction Skill_execute_method)].

Definition Item_dict : gmap string (@Attr Game EventArgs) :=
  list_to_map
    [("__doc__"%string, AValue true);
     ("name"%string, AValue true);            (* 'Unnamed Item' *)
     ("description"%string, AValue true);     (* 'This is an item.' *)
     ("cost"%string, AValue true);            (* 10 *)
     ("permanent"%string, AValue false);      (* False *)
     ("limit"%string, AValue false);          (* 0 *)
     ("category"%string, AValue true);        (* 'Others' *)
     ("sell_value"%string, AValue true)].     (* a property *)

Definition HealthSpeed_dict : gmap string (@Attr Game EventArgs) :=
  list_to_map
    [("__doc__"%string, AValue false);
     ("name"%string, AValue true);
     ("description"%string, AValue true);
     ("on_spawn"%string, AFunction HealthSpeed_on_spawn);
     ("on_attack"%string, HealthSpeed_on_attack)].

Definition Damage_dict : gmap string (@Attr Game EventArgs) :=
  list_to_map
    [("__doc__"%string, AValue false);
     ("name"%string, AValue true);
     ("description"%string, AValue true);
     ("max_level"%string, AValue true);       (* 1 *)
     ("on_attack"%string, AFunction Damage_on_attack)].

Definition Ignite_dict : gmap string (@Attr Game EventArgs) :=
  list_to_map
    [("__doc__"%string, AValue false);
     ("name"%string, AValue true);
     ("description"%string, AValue true);
     ("max_level"%string, AValue true);       (* 2 *)
     ("on_spawn"%string, AFunction Ignite_on_spawn_handler)].

Definition Noclip_dict : gmap string (@Attr Game EventArgs) :=
  list_to_map
    [("__doc__"%string, AValue false);
     ("name"%string, AValue true);
     ("description"%string, AValue true);
     ("max_level"%string, AValue true);       (* 3 *)
     ("cost"%string, AValue true);            (* 2 *)
     ("required_level"%string, AValue true);  (* 5 *)
     ("on_ultimate"%string, Noclip_on_ultimate)].

(** The class statement of a class, by the name of the class; a name that
    is none of these stands for a class derived from [Skill] that binds
    nothing. *)
Definition class_dict (cls : string) : gmap string (@Attr Game EventArgs) :=
  if decide (cls = "Entity"%string) then Entity_dict
  else if decide (cls = "Skill"%string) then Skill_dict
  else if decide (cls = "Item"%string) then Item_dict
  else if decide (cls = "HealthSpeed"%string) then HealthSpeed_dict
  else if decide (cls = "Damage"%string) then Damage_dict
  else if decide (cls = "Ignite"%string) then Ignite_dict
  else if decide (cls = "Noclip"%string) then Noclip_dict
  else ∅.

(** The classes an attribute of a skill class is looked up in, nearest
    first: skills, passives and items are instances of [Skill], of [Item]
    or of a class derived from [Skill]. *)
Definition skill_mro (cls : string) : list string :=
  if decide (cls = "Entity"%string) then ["Entity"]%string
  else if decide (cls = "Skill"%string) then ["Skill"; "Entity"]%string
  else [cls; "Skill"; "Entity"]%string.

(** [getattr(cls, name, None)] on a skill class. *)
Definition getattr (cls name : string) : option (@Attr Game EventArgs) :=
  match list_find (fun c => is_Some (class_dict c !! name)) (skill_mro cls) with
  | Some (_, c) => class_dict c !! name
  | None => builtins cls name
  end.

End Spawn.

(** [cls.__mro__] for the classes of this module: the hero, and the skills. *)
Definition mro (cls : string) : list string :=
  if decide (cls = "TestHero1"%string)
  then ["TestHero1"; "Hero"; "Entity"; "object"]%string
  else if decide (cls = "Hero"%string)
  then ["Hero"; "Entity"; "object"]%string
  else [cls; "Skill"; "Entity"; "object"]%string.

(** The sets the classes hold when the module starts: those of [Hero], both
    [tuple()]. *)
Definition classes : Registry.Classes :=
  {[ ("Hero"%string, Registry.SkillSet) := [];
     ("Hero"%string, Registry.PassiveSet) := [] ]}.

End TestHero.

(** * Properties *)

Import Entities.

Section LevelingSpec.
Variable max_level : Z.

Lemma required_exp_below (self : Hero) :
  Hero_level self < max_level ->
  required_exp max_level self = requiredExp max_level (Hero_level self).
Proof.
  intros Hlt. unfold required_exp, requiredExp, Configs.exp_algorithm.
  destruct (Z.geb_spec (Hero_level self) max_level); [lia|].
  destruct (Z.eqb_spec (Hero_level self) max_level); [lia|reflexivity].
Qed.

Lemma can_level_up_true (self : Hero) :
  can_level_up max_level self = true ->
  requiredExp max_level (Hero_level self) <= Hero_exp self /\ Hero_level self < max_level.
Proof.
  unfold can_level_up. intros [Hge Hlt]%andb_prop.
  apply Z.ltb_lt in Hlt. rewrite <- required_exp_below by exact Hlt.
  split; [lia | exact Hlt].
Qed.

Lemma can_level_up_false (self : Hero) :
  can_level_up max_level self = false ->
  ~ (requiredExp max_level (Hero_level self) <= Hero_exp self /\
     Hero_level self < max_level).
Proof.
  unfold can_level_up. intros Hf [Hge Hlt].
  rewrite <- required_exp_below in Hge by exact Hlt.
  apply andb_false_iff in Hf as [Hf | Hf]; lia.
Qed.

Lemma level_up_once_exp (self : Hero) :
  Hero_level self < max_level ->
  Hero_exp (level_up_once max_level self)
  = Hero_exp self - requiredExp max_level (Hero_level self).
Proof. intros Hlt. rewrite <- required_exp_below by exact Hlt. reflexivity. Qed.

Lemma level_up_once_level (self : Hero) :
  Hero_level (level_up_once max_level self) = Hero_level self + 1.
Proof. reflexivity. Qed.

Lemma level_up_loop_converts (self : Hero) :
  converts max_level (Hero_exp self) (Hero_level self)
           (Hero_exp (level_up_loop max_level self))
           (Hero_level (level_up_loop max_level self)).
Proof.
  funelim (level_up_loop max_level self).
  - destruct (can_level_up_true self e) as [Hge Hlt].
    apply converts_step; [exact Hge | exact Hlt |].
    rewrite <- level_up_once_exp, <- level_up_once_level by exact Hlt.
    assumption.
  - apply converts_stop. apply can_level_up_false. exact e.
Qed.

Lemma level_up_loop_same_owner (self : Hero) :
  same_owner (level_up_loop max_level self) self.
Proof.
  funelim (level_up_loop max_level self).
  - match goal with IH : same_owner _ _ |- _ => destruct IH as (?&?&?&?&?) end.
    repeat split; simpl in *; congruence.
  - repeat split.
Qed.

Lemma converts_deterministic exp level e1 l1 e2 l2 :
  converts max_level exp level e1 l1 -> converts max_level exp level e2 l2 ->
  e1 = e2 /\ l1 = l2.
Proof.
  intros H1. revert e2 l2.
  induction H1 as [exp level Hstop | exp level e1 l1 Hge Hlt _ IH];
    intros e2 l2 H2; inversion H2; subst.
  - split; reflexivity.
  - exfalso. apply Hstop. split; assumption.
  - exfalso. match goal with H : ~ _ |- _ => apply H end. split; assumption.
  - apply IH. assumption.
Qed.

Lemma converts_bounds exp level e l :
  converts max_level exp level e l ->
  0 <= exp ->
  0 <= e /\ level <= l /\ (l < max_level -> e < requiredExp max_level l) /\
  (level <= max_level -> l <= max_level).
Proof.
  induction 1 as [exp level Hstop | exp level e l Hge Hlt _ IH]; intros Hpos.
  - repeat split; lia.
  - destruct IH as (?&?&?&?); [lia|]. repeat split; lia.
Qed.

Lemma hero_eta (r self : Hero) :
  same_owner r self ->
  r = {| entity := {| cls_id := cls_id (entity self); _level := Hero_level r |};
         _exp := Hero_exp r; skills := skills self; passives := passives self;
         items := items self; e_level_up := e_level_up self |}.
Proof.
  destruct r as [[c l] x s p i ev]. unfold same_owner. simpl.
  intros (-> & -> & -> & -> & ->). reflexivity.
Qed.

Lemma Hero_exp_set_run (self : Hero) (newExp exp1 level1 : Z) :
  Hero_level self < max_level -> 0 <= newExp -> newExp <> Hero_exp self ->
  converts max_level newExp (Hero_level self) exp1 level1 ->
  Hero_exp_set max_level self newExp = Returned (leveled max_level self exp1 level1).
Proof.
  intros Hlt Hpos Hne Hc.
  set (s1 := set__exp newExp self).
  pose proof (level_up_loop_converts s1) as Hconv.
  pose proof (level_up_loop_same_owner s1) as Hown.
  destruct (converts_deterministic _ _ _ _ _ _ Hc Hconv) as [-> ->].
  unfold Hero_exp_set, leveled.
  destruct (Z.ltb_spec newExp 0) as [?|_]; [lia|].
  destruct (Z.geb_spec (Hero_level self) max_level) as [?|_]; [lia|].
  destruct (Z.eqb_spec newExp (_exp self)) as [Heq|_];
    [exfalso; apply Hne; exact Heq|].
  cbn [negb]. fold s1. clear Hconv Hc.
  destruct Hown as (Hc & Hs & Hp & Hi & He).
  destruct (level_up_loop max_level s1) as [[c l] x sk pa it ev].
  destruct self as [[c0 l0] x0 sk0 pa0 it0 ev0].
  cbn in Hc, Hs, Hp, Hi, He. subst c sk pa it ev.
  unfold Hero_level, Entity_level, Hero_exp.
  cbn [s1 set__exp set__level set_entity entity _level _exp cls_id
       skills passives items e_level_up].
  destruct (l >=? max_level);
    cbn [set__exp set__level set_entity entity _level _exp cls_id
         skills passives items e_level_up];
    match goal with |- context [?a >? ?b] => destruct (a >? b) end;
    cbn [fire_level_up entity _level _exp cls_id skills passives items
         e_level_up];
    rewrite ?app_nil_r; reflexivity.
Qed.

Lemma converts_total (self : Hero) (newExp : Z) :
  exists exp1 level1, converts max_level newExp (Hero_level self) exp1 level1.
Proof.
  exists (Hero_exp (level_up_loop max_level (set__exp newExp self))),
         (Hero_level (level_up_loop max_level (set__exp newExp self))).
  exact (level_up_loop_converts (set__exp newExp self)).
Qed.

(** C1.  On a hero below its maximum level, assigning a non-negative
    [newExp] that differs from the current exp stores it, runs the
    conversion of the specification (subtract the required exp and add one
    level, as long as the exp reaches the required exp and the level is
    below the maximum), clamps at the maximum level with exp 0, and fires
    the level-up event at most once: exactly once, with the whole gain,
    when the level rose, and not at all otherwise. *)
Theorem exp_setter_converts (self : Hero) (newExp : Z) :
  Hero_level self < max_level -> 0 <= newExp -> newExp <> Hero_exp self ->
  exists exp1 level1,
    converts max_level newExp (Hero_level self) exp1 level1 /\
    (forall e l,
        converts max_level newExp (Hero_level self) e l ->
        e = exp1 /\ l = level1) /\
    let final_level := if level1 >=? max_level then max_level else level1 in
    let final_exp := if level1 >=? max_level then 0 else exp1 in
    Hero_exp_set max_level self newExp =
    Returned
      {| entity := {| cls_id := cls_id (entity self); _level := final_level |};
         _exp := final_exp;
         skills := skills self; passives := passives self; items := items self;
         e_level_up :=
           e_level_up self ++
           (if final_level >? Hero_level self
            then [final_level - Hero_level self] else []) |}.
Proof.
  intros Hlt Hpos Hne.
  destruct (converts_total self newExp) as (exp1 & level1 & Hc).
  exists exp1, level1. split; [exact Hc|]. split.
  - intros e l He. exact (converts_deterministic _ _ _ _ _ _ He Hc).
  - exact (Hero_exp_set_run self newExp exp1 level1 Hlt Hpos Hne Hc).
Qed.

(** C5, as the code has it.  The guard [if exp != self._exp] makes the
    assignment of the current exp a no-op, so the bound on the exp is
    reached when the new exp differs from the current one, and kept when
    the hero already had it. *)
Theorem exp_setter_bound (self : Hero) (newExp : Z) :
  Hero_level self < max_level -> 0 <= newExp ->
  newExp <> Hero_exp self \/
    0 <= Hero_exp self < required_exp max_level self ->
  exists self',
    Hero_exp_set max_level self newExp = Returned self' /\
    (0 <= Hero_exp self' < required_exp max_level self' \/
     (Hero_level self' = max_level /\ Hero_exp self' = 0)).
Proof.
  intros Hlt Hpos Hcase.
  destruct (Z.eq_dec newExp (Hero_exp self)) as [Heq | Hne].
  - destruct Hcase as [Hne | Hin]; [contradiction|].
    exists self. split; [|left; exact Hin].
    unfold Hero_exp_set.
    destruct (Z.ltb_spec newExp 0) as [?|_]; [lia|].
    destruct (Z.geb_spec (Hero_level self) max_level) as [?|_]; [lia|].
    unfold Hero_exp in Heq. rewrite Heq, Z.eqb_refl. reflexivity.
  - destruct (converts_total self newExp) as (exp1 & level1 & Hc).
    exists (leveled max_level self exp1 level1). split.
    + exact (Hero_exp_set_run self newExp exp1 level1 Hlt Hpos Hne Hc).
    + destruct (converts_bounds _ _ _ _ Hc Hpos) as (He0 & Hle & Hreq & Hmax).
      unfold leveled.
      destruct (Z.geb_spec level1 max_level) as [Hge | Hlt1].
      * right. split; reflexivity.
      * left. rewrite required_exp_below by exact Hlt1.
        unfold Hero_exp, Hero_level, Entity_level. cbn. lia.
Qed.

(** *** The level setters *)

Lemma Entity_level_set_raises (self : Entity) (level : Z) :
  level < 0 \/ max_level < level ->
  exists msg, Entity_level_set max_level self level = Raised (ValueError msg) self.
Proof.
  intros Hout. unfold Entity_level_set.
  destruct (Z.ltb_spec level 0) as [Hneg | Hnn]; [eexists; reflexivity|].
  destruct (Z.gtb_spec level max_level) as [Hgt | Hle]; [eexists; reflexivity|].
  lia.
Qed.

Lemma Entity_level_set_returns (self : Entity) (level : Z) :
  0 <= level <= max_level ->
  Entity_level_set max_level self level
  = Returned {| cls_id := cls_id self; _level := level |}.
Proof.
  intros [H0 Hmax]. unfold Entity_level_set.
  destruct (Z.ltb_spec level 0) as [Hneg | _]; [lia|].
  destruct (Z.gtb_spec level max_level) as [Hgt | _]; [lia|].
  reflexivity.
Qed.

Lemma Entity_level_set_bound (self : Entity) (level : Z) :
  0 <= Entity_level self <= max_level ->
  0 <= Entity_level (state_of (Entity_level_set max_level self level)) <= max_level.
Proof.
  intros Hin.
  destruct (Z_lt_dec level 0) as [Hneg | Hnn].
  - destruct (Entity_level_set_raises self level) as [msg ->]; [lia | exact Hin].
  - destruct (Z_lt_dec max_level level) as [Hgt | Hle].
    + destruct (Entity_level_set_raises self level) as [msg ->]; [lia | exact Hin].
    + rewrite Entity_level_set_returns by lia. cbn. lia.
Qed.

(** A failed assignment through the [Hero] setter has already reset the exp. *)
Lemma Hero_level_set_raises (self : Hero) (level : Z) :
  level < 0 \/ max_level < level ->
  exists msg,
    Hero_level_set max_level self level = Raised (ValueError msg) (set__exp 0 self).
Proof.
  intros Hout. unfold Hero_level_set.
  destruct (Entity_level_set_raises (entity (set__exp 0 self)) level Hout)
    as [msg ->].
  exists msg. destruct self as [[c l] x sk pa it ev]. reflexivity.
Qed.

(** A successful one sets the level, resets the exp and fires nothing. *)
Lemma Hero_level_set_returns (self : Hero) (level : Z) :
  0 <= level <= max_level ->
  Hero_level_set max_level self level
  = Returned (set__level level (set__exp 0 self)).
Proof.
  intros Hin. unfold Hero_level_set.
  rewrite Entity_level_set_returns by exact Hin. reflexivity.
Qed.

Lemma Hero_level_set_bound (self : Hero) (level : Z) :
  0 <= Hero_level self <= max_level ->
  0 <= Hero_level (state_of (Hero_level_set max_level self level)) <= max_level.
Proof.
  intros Hin.
  destruct (Z_lt_dec level 0) as [Hneg | Hnn].
  - destruct (Hero_level_set_raises self level) as [msg ->]; [lia | exact Hin].
  - destruct (Z_lt_dec max_level level) as [Hgt | Hle].
    + destruct (Hero_level_set_raises self level) as [msg ->]; [lia | exact Hin].
    + rewrite Hero_level_set_returns by lia. cbn. lia.
Qed.

Lemma Hero_exp_set_bound (self : Hero) (exp : Z) :
  0 <= Hero_level self <= max_level ->
  0 <= Hero_level (state_of (Hero_exp_set max_level self exp)) <= max_level.
Proof.
  intros Hin.
  destruct (Z_lt_dec exp 0) as [Hneg | Hnn].
  { unfold Hero_exp_set. destruct (Z.ltb_spec exp 0); [exact Hin | lia]. }
  destruct (Z_lt_dec (Hero_level self) max_level) as [Hlt | Hge].
  - destruct (Z.eq_dec exp (Hero_exp self)) as [Heq | Hne].
    + unfold Hero_exp_set.
      destruct (Z.ltb_spec exp 0) as [?|_]; [lia|].
      destruct (Z.geb_spec (Hero_level self) max_level) as [?|_]; [lia|].
      unfold Hero_exp in Heq. rewrite Heq, Z.eqb_refl. exact Hin.
    + destruct (converts_total self exp) as (exp1 & level1 & Hc).
      rewrite (Hero_exp_set_run self exp exp1 level1) by (assumption || lia).
      destruct (converts_bounds _ _ _ _ Hc) as (_ & Hle & _ & _); [lia|].
      unfold leveled, Hero_level, Entity_level in *. cbn.
      destruct (Z.geb_spec level1 max_level); lia.
  - unfold Hero_exp_set.
    destruct (Z.ltb_spec exp 0) as [?|_]; [lia|].
    destruct (Z.geb_spec (Hero_level self) max_level) as [_|?]; [|lia].
    exact Hin.
Qed.

(** C7, as the code has it.  The level setter keeps [0 <= level <=
    max_level]: an assignment outside the bound raises [ValueError] and
    leaves the entity as it was, the assignment of [max_level] itself
    succeeds, and an entity or a hero that starts within the bound stays
    within it under any sequence of assignments.  The constructor stores
    the level it is given without a check, so the bound is a property of
    the entities constructed within it. *)
Theorem level_setter_keeps_bound :
  0 <= max_level ->
  (forall (self : Entity) (level : Z),
      level < 0 \/ max_level < level ->
      exists msg,
        Entity_level_set max_level self level = Raised (ValueError msg) self) /\
  (forall self : Entity,
      Entity_level_set max_level self max_level
      = Returned {| cls_id := cls_id self; _level := max_level |}) /\
  (forall (cls : string) (level : Z) (levels : list Z),
      0 <= level <= max_level ->
      0 <= Entity_level (assign_levels max_level (Entity_init cls level) levels)
        <= max_level) /\
  (forall (hero : Hero) (ms : list Mutation),
      0 <= Hero_level hero <= max_level ->
      0 <= Hero_level (mutate max_level hero ms) <= max_level).
Proof.
  intros Hmax. split; [|split; [|split]].
  - exact Entity_level_set_raises.
  - intros self. apply Entity_level_set_returns. lia.
  - intros cls level levels Hin. unfold assign_levels.
    assert (Hstart : 0 <= Entity_level (Entity_init cls level) <= max_level)
      by exact Hin.
    revert Hstart. generalize (Entity_init cls level).
    induction levels as [|l levels IH]; intros e He; [exact He|].
    cbn [fold_left]. apply IH. apply Entity_level_set_bound. exact He.
  - intros hero ms. revert hero. unfold mutate.
    induction ms as [|m ms IH]; intros hero Hin; [exact Hin|].
    cbn [fold_left]. apply IH. destruct m as [l | x]; cbn [mutate1].
    + apply Hero_level_set_bound. exact Hin.
    + apply Hero_exp_set_bound. exact Hin.
Qed.

(** The administrative level setter, when it succeeds: the level is the one
    assigned, the exp is 0, and nothing else changes; in particular the
    level-up event is not fired. *)
Theorem level_setter_success (self : Hero) (level : Z) :
  0 <= level <= max_level ->
  exists self',
    Hero_level_set max_level self level = Returned self' /\
    Hero_level self' = level /\ Hero_exp self' = 0 /\
    e_level_up self' = e_level_up self /\ same_owner self' self.
Proof.
  intros Hin. exists (set__level level (set__exp 0 self)).
  split; [apply Hero_level_set_returns, Hin|].
  repeat split.
Qed.

(** The two guards of the [exp] setter: a negative exp raises and leaves the
    hero as it was; on a hero at (or over) its maximum level any other exp
    is dropped and the exp pinned at 0, with no event. *)
Theorem exp_setter_guards (self : Hero) (exp : Z) :
  (exp < 0 ->
   exists msg, Hero_exp_set max_level self exp = Raised (ValueError msg) self) /\
  (0 <= exp -> max_level <= Hero_level self ->
   Hero_exp_set max_level self exp = Returned (set__exp 0 self)).
Proof.
  unfold Hero_exp_set. split.
  - intros Hneg. destruct (Z.ltb_spec exp 0); [eexists; reflexivity | lia].
  - intros Hpos Hmax. destruct (Z.ltb_spec exp 0); [lia|].
    destruct (Z.geb_spec (Hero_level self) max_level); [reflexivity | lia].
Qed.

End LevelingSpec.

(** ** Dispatch *)
Section DispatchSpec.

Context {St EArgs : Type}.
Variable getattr : string -> string -> option (@Attr St EArgs).



Lemma for_each_filter {A S : Type} (P : A -> Prop) `{!forall x, Decision (P x)}
    (test : A -> bool) (f : A -> S -> Outcome S) (l : list A) (s : S) :
  (forall x, test x = true <-> P x) ->
  for_each (fun x s => if test x then f x s else Returned s) l s
  = for_each f (filter P l) s.
Proof.
  intros Htest. revert s. induction l as [|x l IH]; intros s; [reflexivity|].
  cbn [for_each]. rewrite filter_cons.
  destruct (decide (P x)) as [HP | HnP].
  - apply Htest in HP. rewrite HP. cbn [for_each].
    destruct (f x s); cbn [and_then]; [apply IH | reflexivity].
  - destruct (test x) eqn:Ht; [apply Htest in Ht; contradiction|].
    cbn [and_then]. apply IH.
Qed.

(** The loop over the skills, with its test [if skill.level:]. *)
Lemma for_each_leveled {S : Type} (f : Skill -> S -> Outcome S)
    (l : list Skill) (s : S) :
  for_each (fun skill s =>
              if negb (Entity_level skill =? 0) then f skill s else Returned s)
           l s
  = for_each f (filter (fun skill => Entity_level skill <> 0) l) s.
Proof.
  apply (for_each_filter (fun skill => Entity_level skill <> 0)
           (fun skill => negb (Entity_level skill =? 0))).
  intros x. destruct (Z.eqb_spec (Entity_level x) 0); cbn; intuition congruence.
Qed.




(** What [execute_method] does, by what [getattr] finds: a function is
    called with [self] and the arguments; nothing, or a value that is
    false, and it returns at once; a true value that is no function, and
    the call of it raises [TypeError]. *)
Lemma execute_method_cases (self : Skill) (method_name : string)
    (eargs : EArgs) (st : St) :
  match getattr (cls_id self) method_name with
  | Some (AFunction f) =>
      execute_method getattr self method_name eargs st = f self eargs st
  | Some (AValue true) =>
      exists msg,
        execute_method getattr self method_name eargs st = Raised (TypeError msg) st
  | Some (AValue false) | None =>
      execute_method getattr self method_name eargs st = Returned st
  end.
Proof.
  unfold execute_method.
  destruct (getattr (cls_id self) method_name) as [[f | [|]] |]; cbn;
    eauto.
Qed.


End DispatchSpec.

(** ** The heroes of a program *)
Section OperationsSpec.

Context {St EArgs : Type}.
Variable getattr : string -> string -> option (@Attr St EArgs).
Variable max_level : Z.
Variable max_level_of : string -> Z.







End OperationsSpec.

(** C9: where the code fails it.  [Damage().execute_method('name',
    attacker=..., defender=...)]: the class has no handler of that name,
    [getattr] finds the string [Damage.name], which is true, and the call
    of it raises [TypeError], where the claim has a silent no-op.  That is
    so whatever Python's own attributes and the decorated handlers are. *)
Theorem execute_method_data_attribute (delay_call_runs : bool)
    (PlayerIter : list string -> list Z)
    (get_player : Z -> option Commandlib.Player)
    (team : Commandlib.Player -> Z)
    (HealthSpeed_on_attack Noclip_on_ultimate : @Attr TestHero.Game TestHero.EventArgs)
    (builtins : string -> string -> option (@Attr TestHero.Game TestHero.EventArgs))
    (g : TestHero.Game) :
  let getattr := TestHero.getattr delay_call_runs PlayerIter get_player team
                   HealthSpeed_on_attack Noclip_on_ultimate builtins in
  let damage := Entity_init "Damage" 1 in
  ~ defines_handler getattr (cls_id damage) "name" /\
  execute_method getattr damage "name" TestHero.attack g
  = Raised (TypeError "object is not callable") g.
Proof.
  cbv zeta. split.
  - intros [f Hf]. vm_compute in Hf. discriminate Hf.
  - vm_compute. reflexivity.
Qed.

(** ** Timed effects *)
Import Commandlib.

Section EffectsSpec.

Implicit Types (k : Kind) (p : Player) (d : nat) (w : World) (s : gset nat).

Lemma active_set_set_active k p s w k' p' :
  active_set k' p' (set_active k p s w)
  = if decide (k' = k /\ index p' = index p) then s else active_set k' p' w.
Proof.
  unfold active_set, set_active. cbn [_effects].
  destruct (decide (k' = k)) as [-> | Hk].
  - destruct (decide (index p' = index p)) as [-> | Hp].
    + rewrite lookup_insert_eq, decide_True by done. reflexivity.
    + rewrite lookup_insert_ne, decide_False by (intuition congruence).
      reflexivity.
  - rewrite decide_False by (intuition congruence). reflexivity.
Qed.

Lemma active_set_act a k p w : active_set k p (act a w) = active_set k p w.
Proof. reflexivity. Qed.

(** The four callbacks have one shape. *)
Lemma expire_unfold k p d w :
  expire k p d w
  = if decide (active_set k p (effects_discard k p d w) = ∅)
    then act (on_revert k p) (effects_discard k p d w)
    else effects_discard k p d w.
Proof. destruct k; reflexivity. Qed.

Lemma active_set_discard k p d w :
  active_set k p (effects_discard k p d w) = active_set k p w ∖ {[d]}.
Proof.
  unfold effects_discard. rewrite active_set_set_active, decide_True by done.
  reflexivity.
Qed.

Lemma expire_active_set k p d w k' p' :
  active_set k' p' (expire k p d w)
  = if decide (k' = k /\ index p' = index p) then active_set k p w ∖ {[d]}
    else active_set k' p' w.
Proof.
  rewrite expire_unfold.
  destruct (decide (active_set k p (effects_discard k p d w) = ∅));
    rewrite ?active_set_act; unfold effects_discard;
    apply active_set_set_active.
Qed.

Lemma expire_engine k p d w :
  engine (expire k p d w)
  = engine w ++
    (if decide (active_set k p w ∖ {[d]} = ∅) then [on_revert k p] else []).
Proof.
  rewrite expire_unfold, active_set_discard.
  destruct (decide (active_set k p w ∖ {[d]} = ∅)); cbn [act engine];
    [reflexivity | symmetry; apply app_nil_r].
Qed.

Lemma expire_delays k p d w : delays (expire k p d w) = delays w.
Proof.
  rewrite expire_unfold.
  destruct (decide (active_set k p (effects_discard k p d w) = ∅)); reflexivity.
Qed.

Lemma expire_own_set k p d w :
  active_set k p (expire k p d w) = active_set k p w ∖ {[d]}.
Proof. rewrite expire_active_set, decide_True by done. reflexivity. Qed.

(** *** Timers firing one after the other *)


Lemma subseteq_cons_difference (X : gset nat) d ds :
  X ∖ {[d]} ⊆ list_to_set ds -> X ⊆ list_to_set (d :: ds).
Proof.
  intros Hsub x Hx. cbn [list_to_set].
  destruct (decide (x = d)) as [-> | Hne]; [set_solver|].
  apply elem_of_union_r, Hsub. set_solver.
Qed.

Lemma fire_all_cons k p d ds w :
  fire_all k p (d :: ds) w = fire_all k p ds (expire k p d w).
Proof. reflexivity. Qed.

Lemma fire_all_snoc k p ds d w :
  fire_all k p (ds ++ [d]) w = expire k p d (fire_all k p ds w).
Proof. unfold fire_all. rewrite fold_left_app. reflexivity. Qed.

Lemma fire_all_active_set k p ds w :
  active_set k p (fire_all k p ds w) = active_set k p w ∖ list_to_set ds.
Proof.
  revert w. induction ds as [|d ds IH]; intros w.
  - cbn. set_solver.
  - rewrite fire_all_cons, IH, expire_own_set. set_solver.
Qed.

Lemma fire_all_pending k p ds w :
  active_set k p w ⊈ list_to_set ds ->
  engine (fire_all k p ds w) = engine w.
Proof.
  revert w. induction ds as [|d ds IH]; intros w Hpend; [reflexivity|].
  rewrite fire_all_cons, IH.
  - rewrite expire_engine, decide_False; [apply app_nil_r|].
    intros Hempty. apply Hpend, subseteq_cons_difference.
    rewrite Hempty. apply empty_subseteq.
  - rewrite expire_own_set. intros Hsub.
    apply Hpend, subseteq_cons_difference, Hsub.
Qed.

Lemma fire_all_last k p ds d w :
  active_set k p w ⊈ list_to_set ds ->
  active_set k p w ⊆ list_to_set (ds ++ [d]) ->
  engine (fire_all k p (ds ++ [d]) w) = engine w ++ [on_revert k p].
Proof.
  intros Hpend Hall.
  rewrite fire_all_snoc, expire_engine, fire_all_active_set,
    (fire_all_pending _ _ _ _ Hpend), decide_True; [reflexivity|].
  rewrite list_to_set_app_L in Hall. cbn [list_to_set] in Hall. set_solver.
Qed.

(** *** Applying *)

Variable delay_call_runs : bool.

Lemma scheduled_delay k p duration w :
  delays (scheduled k p duration w) !! length (delays w)
  = Some (mkDelay duration k (Some (p, length (delays w)))).
Proof.
  unfold scheduled. cbn.
  rewrite list_lookup_alter, lookup_app_r by lia.
  rewrite Nat.sub_diag, decide_True by reflexivity. reflexivity.
Qed.

Lemma apply_unfold k p duration w :
  apply delay_call_runs k p duration w
  = if runs_now delay_call_runs k
    then expire k p (length (delays w)) (scheduled k p duration w)
    else scheduled k p duration w.
Proof.
  destruct k; cbn [apply runs_now]; try reflexivity.
  - change (burn delay_call_runs p duration w)
      with (call_delay delay_call_runs (length (delays w))
              (scheduled Burn p duration w)).
    unfold call_delay. rewrite scheduled_delay.
    destruct delay_call_runs; reflexivity.
  - change (freeze delay_call_runs p duration w)
      with (call_delay delay_call_runs (length (delays w))
              (scheduled Freeze p duration w)).
    unfold call_delay. rewrite scheduled_delay.
    destruct delay_call_runs; reflexivity.
Qed.

Lemma scheduled_engine k p duration w :
  engine (scheduled k p duration w) = engine w ++ [on_apply k p].
Proof. reflexivity. Qed.

Lemma scheduled_active_set k p duration w :
  active_set k p (scheduled k p duration w)
  = active_set k p w ∪ {[length (delays w)]}.
Proof.
  unfold scheduled. cbn. unfold effects_add.
  rewrite active_set_set_active, decide_True by done. reflexivity.
Qed.

Lemma scheduled_length k p duration w :
  length (delays (scheduled k p duration w)) = S (length (delays w)).
Proof.
  unfold scheduled. cbn. rewrite length_alter, length_app. cbn. lia.
Qed.

Lemma apply_all_cons k p duration durations w :
  apply_all delay_call_runs k p (duration :: durations) w
  = apply_all delay_call_runs k p durations
      (apply delay_call_runs k p duration w).
Proof. reflexivity. Qed.


Lemma apply_all_engine k p durations w :
  runs_now delay_call_runs k = false ->
  engine (apply_all delay_call_runs k p durations w)
  = engine w ++ replicate (length durations) (on_apply k p).
Proof.
  intros Hnot. revert w.
  induction durations as [|duration durations IH]; intros w.
  - cbn. symmetry. apply app_nil_r.
  - rewrite apply_all_cons, IH, apply_unfold, Hnot, scheduled_engine,
      <- app_assoc.
    reflexivity.
Qed.

(** C3, as the code has it.  Every call applies the engine-level action,
    first thing, whatever the set of the player holds; it is the only
    action of the call, but for the revert that [burn] and [freeze] make
    at once if their [delay()] runs the callback and no other timer is
    pending. *)
Theorem apply_always_acts k p (duration : Z) w :
  engine (apply delay_call_runs k p duration w)
  = engine w ++ [on_apply k p] ++
    (if runs_now delay_call_runs k
     then if decide (active_set k p w ∖ {[length (delays w)]} = ∅)
          then [on_revert k p] else []
     else []).
Proof.
  rewrite apply_unfold. destruct (runs_now delay_call_runs k).
  - rewrite expire_engine, scheduled_engine, scheduled_active_set, <- app_assoc.
    replace ((active_set k p w ∪ {[length (delays w)]}) ∖ {[length (delays w)]})
      with (active_set k p w ∖ {[length (delays w)]}) by set_solver.
    reflexivity.
  - rewrite scheduled_engine. reflexivity.
Qed.

(** C4, as the code has it.  The callback called again with a delay
    object that is no longer in the player's set leaves the set as it is,
    and takes the revert action again if, and only if, the set is empty. *)
Theorem expire_again k p d w :
  d ∉ active_set k p w ->
  active_set k p (expire k p d w) = active_set k p w /\
  engine (expire k p d w)
  = engine w ++ (if decide (active_set k p w = ∅) then [on_revert k p] else []).
Proof.
  intros Hout.
  assert (Hsame : active_set k p w ∖ {[d]} = active_set k p w) by set_solver.
  rewrite expire_own_set, expire_engine, Hsame. split; reflexivity.
Qed.

(** With a [delay()] that runs the callback at once, [burn] and [freeze] on
    a player who holds no other timer of the kind take the apply action and
    the revert action in the same call, and leave the set empty. *)
Theorem delay_call_reverts_at_once k p (duration : Z) w :
  runs_now delay_call_runs k = true ->
  active_set k p w ⊆ {[length (delays w)]} ->
  engine (apply delay_call_runs k p duration w)
  = engine w ++ [on_apply k p; on_revert k p] /\
  active_set k p (apply delay_call_runs k p duration w) = ∅.
Proof.
  intros Hruns Hnone.
  assert (Hempty : (active_set k p w ∪ {[length (delays w)]})
                     ∖ {[length (delays w)]} = ∅) by set_solver.
  rewrite apply_unfold, Hruns, expire_engine, expire_own_set,
    scheduled_engine, scheduled_active_set, Hempty, decide_True by reflexivity.
  rewrite <- app_assoc. split; reflexivity.
Qed.

End EffectsSpec.

(** ** Players near a point *)
Section SortSpec.

Context {D A : Type} (le : relation D) `{!RelDecision le} `{!EqDecision D}.
Context `{!Transitive le} `{!Total le}.
Variable key : A -> D.

Implicit Types (a b : D * A) (l : list (D * A)).


Lemma insert_keyed_Permutation a l : insert_keyed le a l ≡ₚ a :: l.
Proof.
  induction l as [|b l IH]; [reflexivity|]. cbn [insert_keyed].
  destruct (decide (le (fst a) (fst b))); [reflexivity|].
  rewrite IH. apply Permutation_swap.
Qed.

Lemma sort_keyed_Permutation l : sort_keyed le l ≡ₚ l.
Proof.
  induction l as [|a l IH]; [reflexivity|]. cbn [sort_keyed foldr].
  fold (sort_keyed le l). rewrite insert_keyed_Permutation, IH. reflexivity.
Qed.

Lemma insert_keyed_sorted a l :
  StronglySorted (fun a b => le (fst a) (fst b)) l ->
  StronglySorted (fun a b => le (fst a) (fst b)) (insert_keyed le a l).
Proof.
  induction 1 as [|b l Hsorted IH Hall]; cbn [insert_keyed].
  - repeat constructor.
  - destruct (decide (le (fst a) (fst b))) as [Hle | Hnle].
    + constructor; [constructor; assumption|].
      constructor; [exact Hle|].
      eapply Forall_impl; [exact Hall|]. intros c Hc. cbn beta in *.
      etransitivity; eassumption.
    + constructor; [exact IH|].
      rewrite insert_keyed_Permutation. constructor; [|exact Hall].
      destruct (total le (fst a) (fst b)); [contradiction | assumption].
Qed.

Lemma sort_keyed_sorted l :
  StronglySorted (fun a b => le (fst a) (fst b)) (sort_keyed le l).
Proof.
  induction l as [|a l IH]; [constructor|].
  cbn [sort_keyed foldr]. apply insert_keyed_sorted, IH.
Qed.

Lemma insert_keyed_filter (d : D) a l :
  filter (fun b => fst b = d) (insert_keyed le a l)
  = if decide (fst a = d) then a :: filter (fun b => fst b = d) l
    else filter (fun b => fst b = d) l.
Proof.
  induction l as [|b l IH]; cbn [insert_keyed].
  - rewrite filter_cons, filter_nil. reflexivity.
  - destruct (decide (le (fst a) (fst b))) as [Hle | Hnle].
    + rewrite (filter_cons _ a). reflexivity.
    + rewrite (filter_cons _ b), IH, (filter_cons _ b).
      destruct (decide (fst a = d)) as [Ha | Ha]; [|reflexivity].
      destruct (decide (fst b = d)) as [Hb | Hb]; [|reflexivity].
      exfalso. apply Hnle. rewrite Ha, Hb.
      destruct (total le d d); assumption.
Qed.

(** The sort is stable: the elements of one key keep their order. *)
Lemma sort_keyed_stable (d : D) l :
  filter (fun b => fst b = d) (sort_keyed le l) = filter (fun b => fst b = d) l.
Proof.
  induction l as [|a l IH]; [reflexivity|].
  cbn [sort_keyed foldr]. fold (sort_keyed le l).
  rewrite insert_keyed_filter, IH, filter_cons. reflexivity.
Qed.

Lemma keyed_form l :
  Forall (fun a => fst a = key (snd a)) l -> map (keyed key) (map snd l) = l.
Proof.
  induction 1 as [|[d x] l Hd _ IH]; [reflexivity|].
  cbn in *. rewrite IH. unfold keyed. rewrite Hd. reflexivity.
Qed.

Lemma sort_keyed_form (xs : list A) :
  map (keyed key) (map snd (sort_keyed le (map (keyed key) xs)))
  = sort_keyed le (map (keyed key) xs).
Proof.
  apply keyed_form. rewrite sort_keyed_Permutation.
  apply Forall_forall. intros a Ha. apply list_elem_of_In in Ha.
  apply in_map_iff in Ha as (x & <- & _). reflexivity.
Qed.

Lemma sorted_by_key_Permutation (xs : list A) :
  map snd (sort_keyed le (map (keyed key) xs)) ≡ₚ xs.
Proof.
  rewrite sort_keyed_Permutation, map_map. cbn. rewrite map_id. reflexivity.
Qed.

Lemma sorted_by_key_sorted (xs : list A) :
  StronglySorted (fun x y => le (key x) (key y))
                 (map snd (sort_keyed le (map (keyed key) xs))).
Proof.
  pose proof (sort_keyed_sorted (map (keyed key) xs)) as Hsorted.
  rewrite <- sort_keyed_form in Hsorted.
  revert Hsorted. generalize (map snd (sort_keyed le (map (keyed key) xs))).
  induction l as [|x l IH]; intros Hsorted; [constructor|].
  cbn [map] in Hsorted. apply StronglySorted_inv in Hsorted as [Hl Hx].
  constructor; [apply IH, Hl|].
  apply Forall_forall. intros y Hy. rewrite Forall_forall in Hx.
  apply (Hx (keyed key y)). apply list_elem_of_In, in_map, list_elem_of_In, Hy.
Qed.

Lemma sorted_by_key_stable (d : D) (xs : list A) :
  filter (fun x => key x = d) (map snd (sort_keyed le (map (keyed key) xs)))
  = filter (fun x => key x = d) xs.
Proof.
  assert (Hmap : forall l : list A,
             filter (fun b => fst b = d) (map (keyed key) l)
             = map (keyed key) (filter (fun x => key x = d) l)).
  { induction l as [|x l IH]; [reflexivity|].
    cbn [map]. rewrite !filter_cons, IH. cbn [keyed fst].
    destruct (decide (key x = d)); reflexivity. }
  assert (Hinj : forall l1 l2 : list A,
             map (keyed key) l1 = map (keyed key) l2 -> l1 = l2).
  { intros l1 l2 Heq. apply (f_equal (map snd)) in Heq.
    rewrite !map_map in Heq. cbn in Heq. rewrite !map_id in Heq. exact Heq. }
  apply Hinj. rewrite <- !Hmap, sort_keyed_form. apply sort_keyed_stable.
Qed.

(** A sorted list is fixed by the order its elements of each key are in: the
    result of a stable sort does not depend on the algorithm. *)
Lemma stable_sort_unique `{!AntiSymm (=) le} l1 l2 :
  StronglySorted (fun a b => le (fst a) (fst b)) l1 ->
  StronglySorted (fun a b => le (fst a) (fst b)) l2 ->
  (forall d, filter (fun b => fst b = d) l1 = filter (fun b => fst b = d) l2) ->
  l1 = l2.
Proof.
  intros Hs1. revert l2.
  induction Hs1 as [|a l1 Hs1 IH Ha]; intros l2 Hs2 Hstable.
  - destruct l2 as [|b l2]; [reflexivity|].
    specialize (Hstable (fst b)). rewrite filter_nil, filter_cons in Hstable.
    destruct (decide (fst b = fst b)); [discriminate Hstable | contradiction].
  - destruct Hs2 as [|b l2 Hs2 Hb].
    { specialize (Hstable (fst a)). rewrite filter_nil, filter_cons in Hstable.
      destruct (decide (fst a = fst a)); [discriminate Hstable | contradiction]. }
    assert (Hin_a : a ∈ b :: l2).
    { pose proof (Hstable (fst a)) as Hd.
      assert (Ha' : a ∈ filter (fun c => fst c = fst a) (a :: l1))
        by (apply list_elem_of_filter; split; [reflexivity | left]).
      rewrite Hd in Ha'. apply list_elem_of_filter in Ha'. tauto. }
    assert (Hin_b : b ∈ a :: l1).
    { pose proof (Hstable (fst b)) as Hd.
      assert (Hb' : b ∈ filter (fun c => fst c = fst b) (b :: l2))
        by (apply list_elem_of_filter; split; [reflexivity | left]).
      rewrite <- Hd in Hb'. apply list_elem_of_filter in Hb'. tauto. }
    assert (Hrefl : forall d, le d d) by (intros d; destruct (total le d d); assumption).
    assert (Hkey : fst a = fst b).
    { apply (anti_symm le).
      - apply elem_of_cons in Hin_b as [-> | Hin_b]; [apply Hrefl|].
        rewrite Forall_forall in Ha. exact (Ha b Hin_b).
      - apply elem_of_cons in Hin_a as [-> | Hin_a]; [apply Hrefl|].
        rewrite Forall_forall in Hb. exact (Hb a Hin_a). }
    assert (Hhead : a = b).
    { pose proof (Hstable (fst a)) as Hd. rewrite !filter_cons in Hd.
      rewrite decide_True in Hd by reflexivity.
      rewrite decide_True in Hd by (symmetry; exact Hkey).
      congruence. }
    subst b. f_equal. apply IH; [exact Hs2|].
    intros d. pose proof (Hstable d) as Hd. rewrite !filter_cons in Hd.
    destruct (decide (fst a = d)); congruence.
Qed.

End SortSpec.

Section NearbySpec.

Context {Vector D : Type} (le : relation D) `{!RelDecision le} `{!EqDecision D}.
Context `{!Transitive le} `{!Total le}.
Variable get_distance : Vector -> Vector -> D.
Variable location : Player -> Vector.
Variable PlayerIter : string -> string -> list Z.
Variable get_player : Z -> Player.
Variable set_order : gset Player -> list Player.

(** Python goes through a set in an order of its own, once through every
    element. *)
Hypothesis set_order_elements : forall s, set_order s ≡ₚ elements s.

Lemma count_map_distance (vector : Vector) (l : list Player) :
  count_map (fun x => let* d := distance_to get_distance location vector x in
                      count_ret (d, x)) l
  = (map (keyed (fun p => get_distance vector (location p))) l, length l).
Proof.
  induction l as [|x l IH]; [reflexivity|].
  cbn [count_map]. rewrite IH.
  unfold count_bind, distance_to, count_ret, keyed. cbn [map length].
  f_equal. lia.
Qed.

Lemma collect_spec (vector : Vector) (radius : D) (userids : list Z)
    (players : gset Player) :
  collect le get_distance location get_player vector radius userids players
  = (players ∪
     list_to_set (filter (fun p => le (get_distance vector (location p)) radius)
                         (map get_player userids)),
     length userids).
Proof.
  revert players. induction userids as [|u userids IH]; intros players.
  - cbn. unfold count_ret. f_equal. set_solver.
  - cbn [collect map length]. unfold distance_to, count_bind at 1.
    rewrite IH, filter_cons.
    destruct (decide (le (get_distance vector (location (get_player u))) radius));
      f_equal; cbn [list_to_set]; set_solver.
Qed.

Lemma get_nearby_players_unfold (point : Vector) (radius : D)
    (is_filters not_filters : string) :
  let pool := map get_player (PlayerIter is_filters not_filters) in
  let kept : gset Player :=
    list_to_set (filter (fun p => le (get_distance point (location p)) radius) pool) in
  get_nearby_players le get_distance location PlayerIter get_player set_order
                     point radius is_filters not_filters
  = (map snd (sort_keyed le
                (map (keyed (fun p => get_distance point (location p)))
                     (set_order kept))),
     (length pool + length (set_order kept))%nat).
Proof.
  cbv zeta. unfold get_nearby_players. rewrite collect_spec.
  unfold count_bind at 1, sorted. rewrite count_map_distance.
  rewrite (left_id_L ∅ (∪)). cbn. rewrite length_map, Nat.add_0_r. reflexivity.
Qed.

(** C10, as the code has it.  The players returned are the players of the
    pool within the radius, each once, in ascending order of distance,
    those at one distance in the order in which the set of the players
    kept is gone through; none, when no player of the pool is within the
    radius.  The distance is computed once for every userid of the pool,
    and once more, as the sort key, for every player returned. *)
Theorem get_nearby_players_spec (point : Vector) (radius : D)
    (is_filters not_filters : string) :
  let result :=
    get_nearby_players le get_distance location PlayerIter get_player
                       set_order point radius is_filters not_filters in
  let dist := fun p => get_distance point (location p) in
  let pool := map get_player (PlayerIter is_filters not_filters) in
  (forall p, p ∈ fst result <-> p ∈ pool /\ le (dist p) radius) /\
  NoDup (fst result) /\
  StronglySorted (fun p q => le (dist p) (dist q)) (fst result) /\
  (forall d,
      filter (fun p => dist p = d) (fst result)
      = filter (fun p => dist p = d)
          (set_order (list_to_set (filter (fun p => le (dist p) radius) pool)))) /\
  ((forall p, p ∈ pool -> ~ le (dist p) radius) -> fst result = []) /\
  snd result = (length pool + length (fst result))%nat.
Proof.
  cbv zeta. rewrite get_nearby_players_unfold. cbn [fst snd].
  set (pool := map get_player (PlayerIter is_filters not_filters)).
  set (kept := list_to_set
                 (filter (fun p => le (get_distance point (location p)) radius)
                         pool) : gset Player).
  set (dist := fun p => get_distance point (location p)).
  assert (Hperm : map snd (sort_keyed le (map (keyed dist) (set_order kept)))
                    ≡ₚ elements kept).
  { rewrite sorted_by_key_Permutation. apply set_order_elements. }
  split; [|split; [|split; [|split; [|split]]]].
  - intros p. rewrite Hperm, elem_of_elements. unfold kept.
    rewrite elem_of_list_to_set, list_elem_of_filter. tauto.
  - rewrite Hperm. apply NoDup_elements.
  - apply sorted_by_key_sorted; assumption.
  - intros d. apply sorted_by_key_stable; assumption.
  - intros Hnone. apply Permutation_nil_r. rewrite Hperm.
    assert (Hempty : kept = ∅).
    { apply set_eq. intros p. unfold kept.
      rewrite elem_of_list_to_set, list_elem_of_filter. split.
      - intros [Hle Hin]. exfalso. exact (Hnone p Hin Hle).
      - intros Hin. exfalso. exact (not_elem_of_empty p Hin). }
    rewrite Hempty, elements_empty. reflexivity.
  - f_equal. rewrite !length_map.
    rewrite (Permutation_length (sort_keyed_Permutation le _)), length_map.
    reflexivity.
Qed.

End NearbySpec.

(** *** Concrete heroes and entities *)

(** A witness of [exp_setter_converts]: 250 exp on a fresh hero cross two
    thresholds (100, then 120) and leave 30; the event is fired once, with a
    gain of 2. *)
Lemma exp_setter_converts_witness :
  let h := Hero_init "Hero" [] [] 0 0 in
  (Hero_level h < 10000 /\ 0 <= 250 /\ 250 <> Hero_exp h) /\
  Hero_exp_set 10000 h 250
  = Returned {| entity := Entity_init "Hero" 2; _exp := 30;
                skills := []; passives := []; items := [];
                e_level_up := [2] |}.
Proof.
  intros h.
  assert (H1 : Hero_level h < 10000) by reflexivity.
  assert (H2 : 0 <= 250) by discriminate.
  assert (H3 : 250 <> Hero_exp h) by discriminate.
  split; [repeat split; assumption|].
  destruct (exp_setter_converts 10000 h 250 H1 H2 H3) as (e & l & _ & Huniq & Heq).
  assert (Hrun : converts 10000 250 (Hero_level h) 30 2).
  { apply converts_step; [discriminate | reflexivity |].
    apply converts_step; [discriminate | reflexivity |].
    apply converts_stop. intros [Hge _]. apply Hge. reflexivity. }
  destruct (Huniq 30 2 Hrun) as [He Hl]. rewrite <- He, <- Hl in Heq. exact Heq.
Defined.

(** A witness of [exp_setter_bound]. *)
Lemma exp_setter_bound_witness :
  let h := Hero_init "Hero" [] [] 0 0 in
  exists self',
    Hero_exp_set 10000 h 250 = Returned self' /\
    (0 <= Hero_exp self' < required_exp 10000 self' \/
     (Hero_level self' = 10000 /\ Hero_exp self' = 0)).
Proof.
  intros h. apply (exp_setter_bound 10000 h 250).
  - reflexivity.
  - discriminate.
  - left. discriminate.
Defined.

(** C5 fails where the new exp is the current one: a hero loaded with
    level 0 and 500 exp keeps its 500 exp, over the 100 it requires. *)
Lemma exp_setter_same_exp_is_noop :
  let h := Hero_init "Hero" [] [] 0 500 in
  Hero_level h < 10000 /\ 0 <= 500 /\
  Hero_exp_set 10000 h 500 = Returned h /\
  required_exp 10000 h = 100 /\
  ~ (0 <= Hero_exp h < required_exp 10000 h \/
     (Hero_level h = 10000 /\ Hero_exp h = 0)).
Proof.
  cbv zeta. split; [reflexivity|]. split; [discriminate|].
  split; [reflexivity|]. split; [reflexivity|].
  intros [[_ Hlt] | [Hlv _]]; [|discriminate Hlv].
  vm_compute in Hlt. discriminate Hlt.
Qed.

(** C6 at [hero.level = -1] on a hero of level 3 with 50 exp: the setter
    raises, and the hero is left with exp 0. *)
Theorem Hero_level_set_raises_after_reset :
  let h := Hero_init "Hero" [] [] 3 50 in
  Hero_level_set 10000 h (-1)
  = Raised (ValueError "Attempt to set a negative level for an entity.")
           (set__exp 0 h) /\
  Hero_level (state_of (Hero_level_set 10000 h (-1))) = 3 /\
  Hero_exp (state_of (Hero_level_set 10000 h (-1))) = 0 /\
  Hero_exp h = 50.
Proof. cbv zeta. repeat split. Qed.

(** C7 fails at the constructor: [Entity(level=-1)] has level -1. *)
Lemma Entity_init_unchecked :
  Entity_level (Entity_init "Entity" (-1)) = -1 /\
  ~ (0 <= Entity_level (Entity_init "Entity" (-1)) <= 10000).
Proof.
  split; [reflexivity|]. intros [H _]. vm_compute in H. apply H. reflexivity.
Qed.

(** A witness of [level_setter_keeps_bound], on the default [max_level]. *)
Lemma level_setter_keeps_bound_witness :
  0 <= 10000 /\
  (exists msg,
      Entity_level_set 10000 (Entity_init "Entity" 0) (-1)
      = Raised (ValueError msg) (Entity_init "Entity" 0)) /\
  (exists msg,
      Entity_level_set 10000 (Entity_init "Entity" 0) 10001
      = Raised (ValueError msg) (Entity_init "Entity" 0)) /\
  Entity_level_set 10000 (Entity_init "Entity" 0) 10000
  = Returned (Entity_init "Entity" 10000).
Proof.
  assert (H : 0 <= 10000) by discriminate.
  destruct (level_setter_keeps_bound 10000 H) as (Hraise & Hmax & _ & _).
  split; [exact H|]. split; [|split].
  - apply Hraise. left. reflexivity.
  - apply Hraise. right. reflexivity.
  - exact (Hmax (Entity_init "Entity" 0)).
Defined.

(** *** Concrete players and timers *)

(** C3 fails on the second [noclip] of a player: the first timer is
    pending, and [player.noclip = True] is done again. *)
Lemma apply_repeats_action :
  let p := mkPlayer 7 1 in
  let w1 := noclip p 5 empty_world in
  active_set Noclip p w1 = {[0%nat]} /\
  active_set Noclip p w1 <> ∅ /\
  engine w1 = [SetAttr p "noclip" true] /\
  engine (noclip p 3 w1) = [SetAttr p "noclip" true; SetAttr p "noclip" true].
Proof.
  cbv zeta. split; [reflexivity|]. split; [|split; reflexivity].
  apply (bool_decide_unpack _). vm_compute. exact I.
Qed.

(** C4 fails when the only timer of a player fires twice: the second call
    finds the set empty, as the first left it, and reverts again. *)
Lemma expire_twice_reverts_twice :
  let p := mkPlayer 7 1 in
  let w1 := noclip p 5 empty_world in
  let w2 := _unnoclip p 0 w1 in
  let w3 := _unnoclip p 0 w2 in
  ((0%nat ∈ active_set Noclip p w1) /\ (0%nat ∉ active_set Noclip p w2)) /\
  engine w2 = [SetAttr p "noclip" true; SetAttr p "noclip" false] /\
  engine w3 = [SetAttr p "noclip" true; SetAttr p "noclip" false;
               SetAttr p "noclip" false] /\
  (forall delay_call_runs : bool,
      engine (_unburn p 0 (_unburn p 0 (burn delay_call_runs p 5 empty_world)))
      = engine (_unburn p 0 (burn delay_call_runs p 5 empty_world))
        ++ [CallInput p "IgniteLifetime" [0]]).
Proof.
  cbv zeta. split; [split|split; [|split]].
  - apply (bool_decide_unpack _). vm_compute. exact I.
  - apply (bool_decide_unpack _). vm_compute. exact I.
  - reflexivity.
  - reflexivity.
  - intros [|]; reflexivity.
Qed.

(** A witness of [expire_again]: the same timer, fired once more. *)
Lemma expire_again_witness :
  let p := mkPlayer 7 1 in
  let w2 := _unnoclip p 0 (noclip p 5 empty_world) in
  (0%nat ∉ active_set Noclip p w2) /\
  engine (expire Noclip p 0 w2) = engine w2 ++ [SetAttr p "noclip" false].
Proof.
  intros p w2.
  assert (Hout : 0%nat ∉ active_set Noclip p w2).
  { apply (bool_decide_unpack _). vm_compute. exact I. }
  split; [exact Hout|].
  exact (proj2 (expire_again Noclip p 0%nat w2 Hout)).
Defined.

(** *** A concrete server *)

(** A witness of [get_nearby_players_spec]: the three players of the example,
    with the sets gone through in the order of [elements]. *)
Lemma get_nearby_players_spec_witness :
  (forall s : gset Player, elements s ≡ₚ elements s) /\
  let result :=
    get_nearby_players Z.le example_distance example_location example_players
                       example_player elements (0, 0, 0) 100 "alive" "" in
  StronglySorted
    (fun p q => example_distance (0, 0, 0) (example_location p)
                <= example_distance (0, 0, 0) (example_location q))
    (fst result) /\
  snd result
  = (length (map example_player (example_players "alive" "")) + length (fst result))%nat.
Proof.
  assert (Horder : forall s : gset Player, elements s ≡ₚ elements s)
    by (intros s; reflexivity).
  split; [exact Horder|].
  destruct (get_nearby_players_spec Z.le example_distance example_location
              example_players example_player elements Horder
              (0, 0, 0) 100 "alive" "")
    as (_ & _ & Hsorted & _ & _ & Hcalls).
  split; [exact Hsorted | exact Hcalls].
Defined.

(** C10 fails on the count of the distances: of the three players, 50, 150
    and 10 away, the two within 100 are returned, nearest first, after five
    computations of a distance, not three. *)
Lemma get_nearby_players_recomputes :
  get_nearby_players Z.le example_distance example_location example_players
                     example_player elements (0, 0, 0) 100 "alive" ""
  = ([example_player 3; example_player 1], 5%nat) /\
  map (fun u => example_distance (0, 0, 0) (example_location (example_player u)))
      (example_players "alive" "") = [50; 150; 10] /\
  length (example_players "alive" "") = 3%nat.
Proof. split; [vm_compute; reflexivity|]. split; reflexivity. Qed.

(** *** More concrete cases *)

(** A witness of [level_setter_success]. *)
Lemma level_setter_success_witness :
  let h := Hero_init "Hero" [] [] 3 50 in
  0 <= 7 <= 10000 /\
  exists self',
    Hero_level_set 10000 h 7 = Returned self' /\
    Hero_level self' = 7 /\ Hero_exp self' = 0 /\
    e_level_up self' = e_level_up h /\ same_owner self' h.
Proof.
  intros h.
  assert (Hin : 0 <= 7 <= 10000) by (split; discriminate).
  split; [exact Hin|]. exact (level_setter_success 10000 h 7 Hin).
Defined.


(** A witness of [delay_call_reverts_at_once]: [burn] on a fresh server. *)
Lemma delay_call_reverts_at_once_witness :
  let p := mkPlayer 7 1 in
  runs_now true Burn = true /\
  engine (burn true p 5 empty_world)
  = [CallInput p "Ignite" []; CallInput p "IgniteLifetime" [0]].
Proof.
  intros p.
  assert (Hruns : runs_now true Burn = true) by reflexivity.
  assert (Hnone : active_set Burn p empty_world ⊆ {[length (delays empty_world)]}).
  { apply (bool_decide_unpack _). vm_compute. exact I. }
  split; [exact Hruns|].
  exact (proj1 (delay_call_reverts_at_once true Burn p 5 empty_world Hruns Hnone)).
Defined.

(** * Further properties *)

(** ** Experience and skill points *)
Section LevelingMore.

Variable max_level : Z.

Lemma requiredExp_below (level : Z) :
  level < max_level -> requiredExp max_level level = Configs.exp_algorithm level.
Proof.
  intros Hlt. unfold requiredExp, Configs.exp_algorithm.
  destruct (Z.eqb_spec level max_level); [lia | reflexivity].
Qed.

Lemma threshold_sum_succ (level : Z) (n : nat) :
  threshold_sum level (S n)
  = Configs.exp_algorithm level + threshold_sum (level + 1) n.
Proof. reflexivity. Qed.

(** What a conversion takes away is the sum of the thresholds it crosses. *)
Lemma converts_sum exp level exp' level' :
  converts max_level exp level exp' level' ->
  level <= level' /\
  exp = exp' + threshold_sum level (Z.to_nat (level' - level)).
Proof.
  induction 1 as [exp level _ | exp level exp' level' Hge Hlt _ [Hle IH]].
  - split; [lia|]. rewrite Z.sub_diag. change (Z.to_nat 0) with 0%nat.
    cbn [threshold_sum]. lia.
  - split; [lia|].
    replace (Z.to_nat (level' - level))
      with (S (Z.to_nat (level' - (level + 1)))) by lia.
    rewrite threshold_sum_succ, <- requiredExp_below by exact Hlt. lia.
Qed.

Lemma threshold_sum_closed (level : Z) (n : nat) :
  threshold_sum level n
  = Z.of_nat n * (100 + 20 * level) + 10 * Z.of_nat n * (Z.of_nat n - 1).
Proof.
  revert level. induction n as [|n IH]; intros level; [reflexivity|].
  rewrite threshold_sum_succ, IH. unfold Configs.exp_algorithm. nia.
Qed.

(** No exp is lost below the maximum level: the exp assigned is the exp left
    plus the thresholds of the levels gained, [n * (100 + 20 * level) + 10 *
    n * (n - 1)] for [n] levels gained from [level]. *)
Theorem exp_setter_conserves (self : Hero) (newExp : Z) :
  Hero_level self < max_level -> 0 <= newExp -> newExp <> Hero_exp self ->
  Hero_level (state_of (Hero_exp_set max_level self newExp)) < max_level ->
  let self' := state_of (Hero_exp_set max_level self newExp) in
  let n := Hero_level self' - Hero_level self in
  0 <= n /\
  newExp = Hero_exp self' + threshold_sum (Hero_level self) (Z.to_nat n) /\
  newExp = Hero_exp self' + n * (100 + 20 * Hero_level self) + 10 * n * (n - 1).
Proof.
  intros Hlt Hpos Hne.
  destruct (converts_total max_level self newExp) as (exp1 & level1 & Hc).
  rewrite (Hero_exp_set_run max_level self newExp exp1 level1 Hlt Hpos Hne Hc).
  cbn [state_of]. intros Hbelow. cbv zeta.
  destruct (converts_sum _ _ _ _ Hc) as [Hle Hsum].
  unfold leveled, Hero_level, Hero_exp, Entity_level in *. cbn in *.
  destruct (Z.geb_spec level1 max_level) as [Hge | Hlt1]; [lia|].
  split; [lia|]. split; [exact Hsum|].
  rewrite Hsum at 1. rewrite threshold_sum_closed. rewrite Z2Nat.id by lia. lia.
Qed.

(** A conversion started with more exp goes through the same levels, and on
    from where the smaller one stopped. *)
Lemma converts_more exp level exp1 level1 (y exp2 level2 : Z) :
  converts max_level exp level exp1 level1 -> 0 <= y ->
  converts max_level (exp1 + y) level1 exp2 level2 ->
  converts max_level (exp + y) level exp2 level2.
Proof.
  induction 1 as [exp level _ | exp level exp1 level1 Hge Hlt _ IH];
    intros Hy Hrest; [exact Hrest|].
  apply converts_step; [lia | exact Hlt |].
  replace (exp + y - requiredExp max_level level)
    with (exp - requiredExp max_level level + y) by lia.
  apply IH; assumption.
Qed.

(** On a hero whose exp is below its threshold, the setter ends where the
    conversion of the new exp ends, be the new exp the old one or not. *)
Lemma Hero_exp_set_normalized (self : Hero) (x exp1 level1 : Z) :
  Hero_level self < max_level ->
  0 <= Hero_exp self < required_exp max_level self -> 0 <= x ->
  converts max_level x (Hero_level self) exp1 level1 ->
  Hero_level (state_of (Hero_exp_set max_level self x))
  = (if level1 >=? max_level then max_level else level1) /\
  Hero_exp (state_of (Hero_exp_set max_level self x))
  = (if level1 >=? max_level then 0 else exp1).
Proof.
  intros Hlt Hnorm Hx Hc.
  destruct (Z.eq_dec x (Hero_exp self)) as [Heq | Hne].
  - rewrite required_exp_below in Hnorm by exact Hlt.
    assert (Hstop : converts max_level x (Hero_level self) x (Hero_level self))
      by (apply converts_stop; lia).
    destruct (converts_deterministic _ _ _ _ _ _ _ Hc Hstop) as [-> ->].
    unfold Hero_exp_set.
    destruct (Z.ltb_spec x 0) as [?|_]; [lia|].
    destruct (Z.geb_spec (Hero_level self) max_level) as [?|_]; [lia|].
    unfold Hero_exp in Heq. rewrite Heq, Z.eqb_refl. cbn [negb state_of].
    split; reflexivity.
  - rewrite (Hero_exp_set_run max_level self x exp1 level1 Hlt Hx Hne Hc).
    split; reflexivity.
Qed.

(** Exp granted in two parts levels the hero as the same exp granted at
    once: on a hero below its maximum level and its threshold,
    [hero.exp = x] followed by [hero.exp += y] leaves the level and the exp
    that [hero.exp = x + y] leaves. *)
Theorem exp_grants_compose (self : Hero) (x y : Z) :
  Hero_level self < max_level ->
  0 <= Hero_exp self < required_exp max_level self ->
  0 <= x -> 0 <= y ->
  let h1 := state_of (Hero_exp_set max_level self x) in
  let h2 := state_of (Hero_exp_set max_level h1 (Hero_exp h1 + y)) in
  let h := state_of (Hero_exp_set max_level self (x + y)) in
  Hero_level h2 = Hero_level h /\ Hero_exp h2 = Hero_exp h.
Proof.
  intros Hlt Hnorm Hx Hy. cbv zeta.
  destruct (converts_total max_level self x) as (exp1 & level1 & Hc1).
  destruct (converts_bounds _ _ _ _ _ Hc1 Hx) as (He1 & Hle1 & Hreq1 & Hmax1).
  destruct (Hero_exp_set_normalized self x exp1 level1 Hlt Hnorm Hx Hc1)
    as [Hl1 Hx1].
  set (h1 := state_of (Hero_exp_set max_level self x)) in *.
  destruct (Z.geb_spec level1 max_level) as [Hcap | Hbelow].
  - (* the first part already reaches the maximum level *)
    assert (Hstop : converts max_level (exp1 + y) level1 (exp1 + y) level1)
      by (apply converts_stop; lia).
    pose proof (converts_more _ _ _ _ _ _ _ Hc1 Hy Hstop) as Hc.
    destruct (Hero_exp_set_normalized self (x + y) _ _ Hlt Hnorm
                ltac:(lia) Hc) as [Hl Hxy].
    destruct (Z.geb_spec level1 max_level) as [_|?]; [|lia].
    rewrite Hl, Hxy. unfold Hero_exp_set.
    destruct (Z.ltb_spec (Hero_exp h1 + y) 0) as [?|_]; [lia|].
    destruct (Z.geb_spec (Hero_level h1) max_level) as [_|?]; [|lia].
    cbn [state_of]. split; [exact Hl1 | reflexivity].
  - (* the first part stops below it *)
    assert (Hlt1 : Hero_level h1 < max_level) by lia.
    assert (Hnorm1 : 0 <= Hero_exp h1 < required_exp max_level h1).
    { rewrite required_exp_below by exact Hlt1. rewrite Hl1, Hx1.
      split; [exact He1 | apply Hreq1; lia]. }
    destruct (converts_total max_level h1 (Hero_exp h1 + y))
      as (exp2 & level2 & Hc2).
    destruct (Hero_exp_set_normalized h1 (Hero_exp h1 + y) exp2 level2
                Hlt1 Hnorm1 ltac:(lia) Hc2) as [Hl2 Hx2].
    rewrite Hl1, Hx1 in Hc2.
    pose proof (converts_more _ _ _ _ _ _ _ Hc1 Hy Hc2) as Hc.
    destruct (Hero_exp_set_normalized self (x + y) exp2 level2 Hlt Hnorm
                ltac:(lia) Hc) as [Hl Hxy].
    rewrite Hl2, Hx2, Hl, Hxy. split; reflexivity.
Qed.

End LevelingMore.

Section SkillPointsSpec.

Variable max_level : Z.
Variable cost : string -> Z.

Lemma used_points_from (acc : Z) (l : list Skill) :
  fold_left (fun acc skill => acc + Entity_level skill * cost (cls_id skill)) l acc
  = acc + used_points cost l.
Proof.
  unfold used_points. revert acc. induction l as [|x l IH]; intros acc.
  - cbn. lia.
  - cbn [fold_left]. rewrite IH, (IH (0 + _)). lia.
Qed.

Lemma used_points_cons (x : Skill) (l : list Skill) :
  used_points cost (x :: l)
  = Entity_level x * cost (cls_id x) + used_points cost l.
Proof. unfold used_points at 1. cbn [fold_left]. apply used_points_from. Qed.

Lemma used_points_insert (l : list Skill) (i : nat) (old new : Skill) :
  l !! i = Some old ->
  used_points cost (<[i := new]> l)
  = used_points cost l - Entity_level old * cost (cls_id old)
    + Entity_level new * cost (cls_id new).
Proof.
  revert i. induction l as [|x l IH]; intros [|i] Hi; try discriminate.
  - cbn in Hi. injection Hi as ->. cbn [insert list_insert].
    rewrite !used_points_cons. lia.
  - cbn in Hi. change (<[S i := new]> (x :: l)) with (x :: <[i := new]> l).
    rewrite !used_points_cons, (IH i Hi). lia.
Qed.

(** Whatever exp is assigned, the setter never lowers the level, leaves the
    skills alone, fires the event exactly when the level rose, with the
    gain, and in doing so raises the skill points by that gain. *)
Theorem exp_setter_gain (self : Hero) (exp : Z) :
  let self' := state_of (Hero_exp_set max_level self exp) in
  let gain := Hero_level self' - Hero_level self in
  0 <= gain /\
  skills self' = skills self /\
  e_level_up self' = e_level_up self ++ (if gain >? 0 then [gain] else []) /\
  skill_points cost self' = skill_points cost self + gain.
Proof.
  cbv zeta.
  assert (Hsame : forall h : Hero,
             Hero_level h = Hero_level self -> skills h = skills self ->
             e_level_up h = e_level_up self ->
             0 <= Hero_level h - Hero_level self /\
             skills h = skills self /\
             e_level_up h
             = e_level_up self ++
               (if Hero_level h - Hero_level self >? 0
                then [Hero_level h - Hero_level self] else []) /\
             skill_points cost h
             = skill_points cost self + (Hero_level h - Hero_level self)).
  { intros h Hl Hs He. rewrite Hl, Z.sub_diag. cbn. rewrite app_nil_r.
    unfold skill_points. unfold Hero_level, Entity_level in Hl.
    rewrite Hs, Hl. split; [lia|]. split; [reflexivity|].
    split; [exact He | lia]. }
  destruct (Z_lt_dec exp 0) as [Hneg | Hpos].
  { unfold Hero_exp_set. destruct (Z.ltb_spec exp 0); [|lia].
    apply Hsame; reflexivity. }
  destruct (Z_lt_dec (Hero_level self) max_level) as [Hlt | Hge].
  - destruct (Z.eq_dec exp (Hero_exp self)) as [Heq | Hne].
    + unfold Hero_exp_set.
      destruct (Z.ltb_spec exp 0) as [?|_]; [lia|].
      destruct (Z.geb_spec (Hero_level self) max_level) as [?|_]; [lia|].
      unfold Hero_exp in Heq. rewrite Heq, Z.eqb_refl.
      apply Hsame; reflexivity.
    + destruct (converts_total max_level self exp) as (exp1 & level1 & Hc).
      rewrite (Hero_exp_set_run max_level self exp exp1 level1)
        by (assumption || lia).
      destruct (converts_sum _ _ _ _ _ Hc) as [Hle _].
      unfold leveled, skill_points, Hero_level, Entity_level in *.
      cbn [state_of entity _level _exp skills e_level_up].
      set (final := if level1 >=? max_level then max_level else level1).
      assert (Hfinal : _level (entity self) <= final)
        by (unfold final; destruct (Z.geb_spec level1 max_level); lia).
      replace (final - _level (entity self) >? 0)
        with (final >? _level (entity self))
        by (destruct (Z.gtb_spec final (_level (entity self)));
            destruct (Z.gtb_spec (final - _level (entity self)) 0);
            reflexivity || lia).
      repeat split; lia.
  - unfold Hero_exp_set.
    destruct (Z.ltb_spec exp 0) as [?|_]; [lia|].
    destruct (Z.geb_spec (Hero_level self) max_level) as [_|?]; [|lia].
    apply Hsame; reflexivity.
Qed.

(** Setting the level of one of the hero's skills changes the skill points
    by the cost of the skill times the levels added, and nothing else of
    the hero. *)
Theorem skill_level_costs (max_level_of : string -> Z) (self : Hero)
    (i : nat) (skill : Skill) (level : Z) :
  skills self !! i = Some skill ->
  0 <= level <= max_level_of (cls_id skill) ->
  exists self',
    set_skill_level max_level_of i level self = Returned self' /\
    skills self' !! i = Some {| cls_id := cls_id skill; _level := level |} /\
    skill_points cost self'
    = skill_points cost self - cost (cls_id skill) * (level - Entity_level skill) /\
    entity self' = entity self /\ _exp self' = _exp self /\
    passives self' = passives self /\ items self' = items self /\
    e_level_up self' = e_level_up self.
Proof.
  intros Hi Hin. unfold set_skill_level, Skill in *. rewrite Hi.
  rewrite Entity_level_set_returns by exact Hin.
  eexists. split; [reflexivity|]. cbn [skills entity _exp passives items e_level_up].
  split.
  - apply list_lookup_insert_eq. eapply lookup_lt_Some, Hi.
  - split; [|repeat split].
    unfold skill_points. cbn [skills entity].
    rewrite (used_points_insert _ _ _ _ Hi). unfold Entity_level. cbn. lia.
Qed.

End SkillPointsSpec.

(** ** A new hero *)
Section FreshHero.

Context {St EArgs : Type}.
Variable getattr : string -> string -> option (@Attr St EArgs).
Variable cost : string -> Z.

Lemma used_points_unlearned (l : list Skill) :
  Forall (fun skill => Entity_level skill = 0) l -> used_points cost l = 0.
Proof.
  induction 1 as [|x l Hx _ IH]; [reflexivity|].
  rewrite used_points_cons, Hx, IH. lia.
Qed.

Lemma filter_unlearned (l : list Skill) :
  Forall (fun skill => Entity_level skill = 0) l ->
  filter (fun skill => Entity_level skill <> 0) l = [].
Proof.
  induction 1 as [|x l Hx _ IH]; [reflexivity|].
  rewrite filter_cons. destruct (decide (Entity_level x <> 0)); [lia | exact IH].
Qed.

Lemma fresh_instances (classes : list (string * bool)) :
  Forall (fun skill => Entity_level skill = 0)
         (map (fun c => Entity_init (fst c) 0)
              (filter (fun c => snd c = true) classes)).
Proof.
  apply Forall_forall. intros x Hx.
  apply list_elem_of_In, in_map_iff in Hx as (c & <- & _). reflexivity.
Qed.

(** A hero just constructed has one skill of level 0 for each enabled class
    of its skill set, in the order of the set, and no item; all its level
    is skill points; and an event reaches its passives only. *)
Theorem fresh_hero_passives_only (cls : string)
    (skill_set passive_set : list (string * bool)) (level exp : Z)
    (method_name : string) (eargs : EArgs) (st : St) :
  let h := Hero_init cls skill_set passive_set level exp in
  map cls_id (skills h) = map fst (filter (fun c => snd c = true) skill_set) /\
  Forall (fun skill => Entity_level skill = 0) (skills h) /\
  items h = [] /\
  skill_points cost h = level /\
  execute_skills getattr h method_name eargs st
  = for_each (fun passive => execute_method getattr passive method_name eargs)
             (passives h) st.
Proof.
  cbv zeta. pose proof (fresh_instances skill_set) as Hfresh.
  split; [|split; [|split; [|split]]].
  - unfold Hero_init. cbn [skills]. rewrite map_map. reflexivity.
  - exact Hfresh.
  - reflexivity.
  - unfold skill_points, Hero_init. cbn [entity skills Entity_init _level].
    rewrite used_points_unlearned by exact Hfresh. lia.
  - unfold execute_skills.
    destruct (for_each _ (passives _) st) as [s1 | e s1]; cbn [and_then];
      [|reflexivity].
    rewrite for_each_leveled. unfold Hero_init at 1. cbn [skills].
    rewrite filter_unlearned by exact Hfresh. reflexivity.
Qed.

End FreshHero.

(** ** The enabled subclasses *)
Section SubclassesSpec.
Import Registry.

Variable tools_get_subclasses : Class -> list Class.

(** [get_subclasses] returns the enabled classes among those derived from
    the class, each as often as it is found, in ascending order of [name];
    classes of one name stay in the order they were found in. *)
Theorem get_subclasses_sorted (cls : Class) :
  let found := tools_get_subclasses cls in
  let result := get_subclasses tools_get_subclasses cls in
  result ≡ₚ filter (fun subcls => enabled subcls = true) found /\
  (forall subcls, subcls ∈ result <-> subcls ∈ found /\ enabled subcls = true) /\
  StronglySorted (fun a b => String.le (name a) (name b)) result /\
  (forall n : string,
      filter (fun subcls => name subcls = n) result
      = filter (fun subcls => name subcls = n)
               (filter (fun subcls => enabled subcls = true) found)).
Proof.
  cbv zeta. unfold get_subclasses.
  assert (Hperm : map snd
                    (sort_keyed String.le
                       (map (keyed name)
                          (filter (fun subcls => enabled subcls = true)
                                  (tools_get_subclasses cls))))
                  ≡ₚ filter (fun subcls => enabled subcls = true)
                       (tools_get_subclasses cls))
    by apply sorted_by_key_Permutation.
  split; [exact Hperm|]. split; [|split].
  - intros subcls. rewrite Hperm, list_elem_of_filter. tauto.
  - apply sorted_by_key_sorted; apply _.
  - intros n. apply sorted_by_key_stable; apply _.
Qed.

End SubclassesSpec.

(** ** Runs of the timed effects *)
Section RunsSpec.

Variable delay_call_runs : bool.

Implicit Types (k : Kind) (p : Player) (d : nat) (w : World).

Lemma scheduled_active_sets k p (duration : Z) w k' p' :
  active_set k' p' (scheduled k p duration w)
  = if decide (k' = k /\ index p' = index p)
    then active_set k p w ∪ {[length (delays w)]}
    else active_set k' p' w.
Proof.
  unfold scheduled. cbn. unfold effects_add. rewrite active_set_set_active.
  reflexivity.
Qed.

Lemma engine_state_snoc k (idx : Z) (log : list Action) (a : Action) :
  engine_state k idx (log ++ [a])
  = default (engine_state k idx log) (toggles k idx a).
Proof. unfold engine_state. rewrite fold_left_app. reflexivity. Qed.

Lemma toggles_on_apply k (idx : Z) k' p' :
  toggles k idx (on_apply k' p')
  = if decide (k = k' /\ index p' = idx) then Some true else None.
Proof.
  unfold toggles.
  assert (Hp : player_of (on_apply k' p') = p') by (destruct k'; reflexivity).
  rewrite Hp.
  destruct (decide (index p' = idx)) as [Hi | Hi];
    [|rewrite decide_False by tauto; reflexivity].
  destruct (decide (k = k')) as [-> | Hk].
  - rewrite !decide_True by tauto. reflexivity.
  - rewrite (decide_False (P := k = k' /\ _)) by tauto.
    rewrite !decide_False; [reflexivity | |];
      destruct k, k'; cbn; congruence.
Qed.

Lemma toggles_on_revert k (idx : Z) k' p' :
  toggles k idx (on_revert k' p')
  = if decide (k = k' /\ index p' = idx) then Some false else None.
Proof.
  unfold toggles.
  assert (Hp : player_of (on_revert k' p') = p') by (destruct k'; reflexivity).
  rewrite Hp.
  destruct (decide (index p' = idx)) as [Hi | Hi];
    [|rewrite decide_False by tauto; reflexivity].
  destruct (decide (k = k')) as [-> | Hk].
  - rewrite (decide_True (P := k' = k' /\ _)) by tauto.
    rewrite decide_False by (destruct k'; cbn; congruence).
    rewrite decide_True by reflexivity. reflexivity.
  - rewrite (decide_False (P := k = k' /\ _)) by tauto.
    rewrite !decide_False; [reflexivity | |];
      destruct k, k'; cbn; congruence.
Qed.

Lemma in_step_scheduled k p (duration : Z) w :
  in_step w -> in_step (scheduled k p duration w).
Proof.
  intros Hw k' p'.
  rewrite scheduled_engine, engine_state_snoc, toggles_on_apply,
    scheduled_active_sets.
  destruct (decide (k' = k /\ index p = index p')) as [[-> Hi] | Hne].
  - rewrite decide_True by (split; [reflexivity | symmetry; exact Hi]).
    cbn [default]. symmetry. apply bool_decide_eq_true. set_solver.
  - rewrite decide_False by (intros [? ?]; apply Hne; split; congruence).
    cbn [default]. apply Hw.
Qed.

Lemma in_step_expire k p d w : in_step w -> in_step (expire k p d w).
Proof.
  intros Hw k' p'. rewrite expire_engine, expire_active_set.
  destruct (decide (k' = k /\ index p' = index p)) as [[-> Hi] | Hne].
  - destruct (decide (active_set k p w ∖ {[d]} = ∅)) as [Hempty | Hleft].
    + rewrite engine_state_snoc, toggles_on_revert, decide_True
        by (split; [reflexivity | symmetry; exact Hi]).
      cbn [default]. symmetry. apply bool_decide_eq_false. tauto.
    + rewrite app_nil_r.
      assert (Hsame : active_set k p' w = active_set k p w)
        by (unfold active_set; rewrite Hi; reflexivity).
      rewrite Hw, Hsame.
      rewrite !bool_decide_eq_true_2; [reflexivity | exact Hleft |].
      intros Hempty. apply Hleft. rewrite Hempty. set_solver.
  - destruct (decide (active_set k p w ∖ {[d]} = ∅)).
    + rewrite engine_state_snoc, toggles_on_revert, decide_False
        by (intros [? ?]; apply Hne; split; congruence).
      cbn [default]. apply Hw.
    + rewrite app_nil_r. apply Hw.
Qed.

Lemma in_step_fire_delay d w : in_step w -> in_step (fire_delay d w).
Proof.
  intros Hw. unfold fire_delay.
  destruct (delays w !! d) as [[secs k [[p d']|]]|]; try exact Hw.
  apply in_step_expire, Hw.
Qed.

Lemma in_step_apply k p (duration : Z) w :
  in_step w -> in_step (apply delay_call_runs k p duration w).
Proof.
  intros Hw. rewrite apply_unfold.
  destruct (runs_now delay_call_runs k).
  - apply in_step_expire, in_step_scheduled, Hw.
  - apply in_step_scheduled, Hw.
Qed.

Lemma in_step_run (events : list Event) w :
  in_step w -> in_step (run delay_call_runs events w).
Proof.
  revert w. induction events as [|e events IH]; intros w Hw; [exact Hw|].
  cbn [run fold_left]. apply IH. destruct e as [k p duration | k p d | d].
  - apply in_step_apply, Hw.
  - apply in_step_expire, Hw.
  - apply in_step_fire_delay, Hw.
Qed.

(** After any sequence of applications, of timers run by the scheduler and
    of callbacks called with any arguments, and whatever [delay()] does,
    the last engine action about a kind and a player is the apply action
    exactly when the player's set of that kind is not empty. *)
Theorem effect_on_iff_timer_held (events : list Event) k p :
  let w := run delay_call_runs events empty_world in
  engine_state k (index p) (engine w) = true <-> active_set k p w <> ∅.
Proof.
  cbv zeta.
  assert (Hstart : in_step empty_world).
  { intros k' p'. symmetry. apply bool_decide_eq_false.
    intros Hne. apply Hne. reflexivity. }
  rewrite (in_step_run events empty_world Hstart k p).
  apply bool_decide_eq_true.
Qed.

End RunsSpec.

(** ** The delays and the sets *)
Section ConsistencySpec.

Variable delay_call_runs : bool.

Implicit Types (k : Kind) (p : Player) (d : nat) (w : World).

Lemma scheduled_delays_old k p (duration : Z) w d :
  (d < length (delays w))%nat ->
  delays (scheduled k p duration w) !! d = delays w !! d.
Proof.
  intros Hd. unfold scheduled. cbn.
  rewrite list_lookup_alter_ne by lia. apply lookup_app_l. exact Hd.
Qed.

Lemma consistent_scheduled k p (duration : Z) w :
  consistent w -> consistent (scheduled k p duration w).
Proof.
  intros [Hargs Hsets]. split.
  - intros d e He.
    destruct (Nat.lt_total d (length (delays w))) as [Hlt | [-> | Hgt]].
    + rewrite scheduled_delays_old in He by exact Hlt. exact (Hargs d e He).
    + rewrite scheduled_delay in He. injection He as <-. eexists. reflexivity.
    + apply lookup_lt_Some in He. rewrite scheduled_length in He. lia.
  - intros k' p' d Hd. rewrite scheduled_active_sets in Hd.
    assert (Hold : d ∈ active_set k' p' w ->
                   exists seconds player',
                     delays (scheduled k p duration w) !! d
                     = Some (mkDelay seconds k' (Some (player', d))) /\
                     index player' = index p').
    { intros Hin. destruct (Hsets k' p' d Hin) as (secs & q & He & Hq).
      exists secs, q. split; [|exact Hq].
      rewrite scheduled_delays_old; [exact He|]. eapply lookup_lt_Some, He. }
    destruct (decide (k' = k /\ index p' = index p)) as [[-> Hi] | Hne];
      [|exact (Hold Hd)].
    apply elem_of_union in Hd as [Hd | Hd].
    + apply Hold. unfold active_set in *. rewrite Hi. exact Hd.
    + apply elem_of_singleton in Hd as ->.
      exists duration, p. split; [apply scheduled_delay | symmetry; exact Hi].
Qed.

Lemma consistent_expire k p d w : consistent w -> consistent (expire k p d w).
Proof.
  intros [Hargs Hsets]. split.
  - intros d' e. rewrite expire_delays. apply Hargs.
  - intros k' p' d' Hd. rewrite expire_delays. apply Hsets.
    rewrite expire_active_set in Hd.
    destruct (decide (k' = k /\ index p' = index p)) as [[-> Hi] | Hne];
      [|exact Hd].
    apply elem_of_difference in Hd as [Hd _].
    unfold active_set in *. rewrite Hi. exact Hd.
Qed.

Lemma consistent_fire_delay d w : consistent w -> consistent (fire_delay d w).
Proof.
  intros Hw. unfold fire_delay.
  destruct (delays w !! d) as [[secs k [[p d']|]]|]; try exact Hw.
  apply consistent_expire, Hw.
Qed.

Lemma consistent_run (events : list Event) w :
  consistent w -> consistent (run delay_call_runs events w).
Proof.
  revert w. induction events as [|e events IH]; intros w Hw; [exact Hw|].
  cbn [run fold_left]. apply IH. destruct e as [k p duration | k p d | d].
  - cbn [step]. rewrite apply_unfold. destruct (runs_now delay_call_runs k).
    + apply consistent_expire, consistent_scheduled, Hw.
    + apply consistent_scheduled, Hw.
  - apply consistent_expire, Hw.
  - apply consistent_fire_delay, Hw.
Qed.

Lemma consistent_empty : consistent empty_world.
Proof.
  split.
  - intros d e He. discriminate He.
  - intros k p d Hd. exfalso. exact (not_elem_of_empty d Hd).
Qed.

(** A delay run by the scheduler leaves every set, and only by itself. *)
Lemma fire_delay_active_set k p d w :
  consistent w ->
  active_set k p (fire_delay d w) = active_set k p w ∖ {[d]}.
Proof.
  intros [Hargs Hsets]. unfold fire_delay.
  assert (Hout : d ∉ active_set k p w ->
                 active_set k p w = active_set k p w ∖ {[d]}) by set_solver.
  destruct (delays w !! d) as [[secs k0 a]|] eqn:He.
  - destruct (Hargs d _ He) as [p0 Ha]. cbn in Ha. subst a.
    rewrite expire_active_set.
    destruct (decide (k = k0 /\ index p = index p0)) as [[-> Hi] | Hne].
    + unfold active_set. rewrite Hi. reflexivity.
    + apply Hout. intros Hin. apply Hne.
      destruct (Hsets k p d Hin) as (secs' & q & He' & Hq).
      rewrite He in He'. injection He' as _ -> ->. split; [reflexivity|].
      symmetry. exact Hq.
  - apply Hout. intros Hin.
    destruct (Hsets k p d Hin) as (secs' & q & He' & _). congruence.
Qed.

Lemma run_cons (e : Event) (events : list Event) w :
  run delay_call_runs (e :: events) w
  = run delay_call_runs events (step delay_call_runs w e).
Proof. reflexivity. Qed.

Lemma run_due_active_set (ds : list nat) k p w :
  consistent w ->
  active_set k p (run delay_call_runs (map Due ds) w)
  = active_set k p w ∖ list_to_set ds.
Proof.
  revert w. induction ds as [|d ds IH]; intros w Hw.
  - cbn. set_solver.
  - cbn [map]. rewrite run_cons. cbn [step].
    rewrite IH by (apply consistent_fire_delay, Hw).
    rewrite fire_delay_active_set by exact Hw. cbn [list_to_set]. set_solver.
Qed.

(** After any run, the sets hold only delays that the scheduler holds, with
    the callback of their kind and a player of their index as arguments; so
    the delays it runs leave the sets, each by itself, and once it has run
    every delay made, no player holds a timer and no effect is on. *)
Theorem all_timers_run (events : list Event) (ds : list nat) k p :
  let w := run delay_call_runs events empty_world in
  let w' := run delay_call_runs (map Due ds) w in
  consistent w /\
  active_set k p w' = active_set k p w ∖ list_to_set ds /\
  ((forall d, (d < length (delays w))%nat -> d ∈ ds) ->
   active_set k p w' = ∅ /\ engine_state k (index p) (engine w') = false).
Proof.
  cbv zeta.
  pose proof (consistent_run events empty_world consistent_empty) as Hw.
  split; [exact Hw|]. split; [apply run_due_active_set, Hw|].
  intros Hall.
  assert (Hempty : active_set k p
                     (run delay_call_runs (map Due ds)
                        (run delay_call_runs events empty_world)) = ∅).
  { rewrite run_due_active_set by exact Hw.
    apply set_eq. intros d. split; [|set_solver].
    intros [Hin Hnot]%elem_of_difference. exfalso. apply Hnot.
    apply elem_of_list_to_set, Hall.
    destruct Hw as [_ Hsets].
    destruct (Hsets k p d Hin) as (secs & q & He & _).
    eapply lookup_lt_Some, He. }
  split; [exact Hempty|].
  assert (Hstart : in_step empty_world).
  { intros k' p'. symmetry. apply bool_decide_eq_false.
    intros Hne. apply Hne. reflexivity. }
  rewrite (in_step_run delay_call_runs _ _
             (in_step_run delay_call_runs events _ Hstart) k p).
  apply bool_decide_eq_false. intros Hne. apply Hne, Hempty.
Qed.

(** The dictionaries of [_effects] only grow: a callback leaves the index
    of its player among the keys, with the set that is left, be it empty,
    and no key is ever removed. *)
Theorem effects_keys_stay (events : list Event) k p d w :
  _effects (expire k p d w) k !! index p = Some (active_set k p w ∖ {[d]}) /\
  dom (_effects w k) ⊆ dom (_effects (run delay_call_runs events w) k).
Proof.
  split.
  - rewrite expire_unfold.
    destruct (decide (active_set k p (effects_discard k p d w) = ∅));
      cbn; rewrite decide_True by reflexivity; apply lookup_insert_eq.
  - assert (Hset : forall k0 p0 s w0,
               dom (_effects w0 k) ⊆ dom (_effects (set_active k0 p0 s w0) k)).
    { intros k0 p0 s w0. cbn. destruct (decide (k = k0)); [|reflexivity].
      rewrite dom_insert_L. set_solver. }
    assert (Hexp : forall k0 p0 d0 w0,
               dom (_effects w0 k) ⊆ dom (_effects (expire k0 p0 d0 w0) k)).
    { intros k0 p0 d0 w0. rewrite expire_unfold.
      destruct (decide (active_set k0 p0 (effects_discard k0 p0 d0 w0) = ∅));
        apply Hset. }
    assert (Hsch : forall k0 p0 dur w0,
               dom (_effects w0 k) ⊆ dom (_effects (scheduled k0 p0 dur w0) k)).
    { intros k0 p0 dur w0. unfold scheduled. cbn.
      destruct (decide (k = k0)); [|reflexivity].
      rewrite dom_insert_L. set_solver. }
    revert w. induction events as [|e events IH]; intros w; [reflexivity|].
    cbn [run fold_left]. etransitivity; [|apply IH].
    destruct e as [k0 p0 dur | k0 p0 d0 | d0]; cbn [step].
    + rewrite apply_unfold. destruct (runs_now delay_call_runs k0).
      * etransitivity; [apply Hsch | apply Hexp].
      * apply Hsch.
    + apply Hexp.
    + unfold fire_delay.
      destruct (delays w !! d0) as [[secs k1 [[p1 d1]|]]|]; try reflexivity.
      apply Hexp.
Qed.

End ConsistencySpec.

(** ** Timers that overlap *)
Section StackingSpec.

Variable delay_call_runs : bool.

Implicit Types (k : Kind) (p : Player) (d : nat) (w : World).









End StackingSpec.

(** ** Shifting a property *)
Section ShiftingSpec.

Context {Num : Type}.
Variable add : Num -> Num -> Num.
Variable neg : Num -> Num.
Variable delay_call_runs : bool.

(** [shiftprop] with a duration shifts the attribute and makes one delay,
    which shifts it by the negative when the scheduler runs it.  On a value
    and a shift for which adding the shift and then its negative gives the
    value back (whole numbers; not floats in general), the attributes are
    then what they were.  That is so when the [delay()] that follows the
    making of the delay runs nothing; when it runs the callback, the
    attribute is back at once, and the scheduler later leaves it one shift
    below. *)
Theorem shiftprop_restores (player : Player) (prop : string)
    (shift : Num) (duration : Z) (value : Num) (w : Props Num) :
  attrs w !! (player, prop) = Some value -> duration <> 0 ->
  add (add value shift) (neg shift) = value ->
  exists w1 w2,
    shiftprop add neg delay_call_runs player prop shift duration w = Returned w1 /\
    shifts w1 = shifts w ++ [mkShift duration player prop (neg shift)] /\
    attrs w1
    = <[(player, prop) := if delay_call_runs then value else add value shift]>
        (attrs w) /\
    fire_shift add (length (shifts w)) w1 = Returned w2 /\
    shifts w2 = shifts w1 /\
    attrs w2
    = <[(player, prop) := if delay_call_runs then add value (neg shift) else value]>
        (attrs w) /\
    (delay_call_runs = false -> attrs w2 = attrs w).
Proof.
  intros Hv Hd Hexact. unfold shiftprop, shift_attr. rewrite Hv. cbn [and_then].
  destruct (Z.eqb_spec duration 0) as [?|_]; [contradiction|]. cbn [negb attrs shifts].
  destruct delay_call_runs.
  - rewrite lookup_insert_eq, insert_insert_eq, Hexact.
    eexists _, _. split; [reflexivity|]. split; [reflexivity|].
    split; [reflexivity|]. unfold fire_shift, shift_attr. cbn [shifts attrs].
    rewrite list_lookup_middle by reflexivity.
    cbn [shift_player shift_prop shift_by].
    rewrite lookup_insert_eq, insert_insert_eq.
    split; [reflexivity|]. split; [reflexivity|].
    split; [reflexivity | discriminate].
  - eexists _, _. split; [reflexivity|]. split; [reflexivity|].
    split; [reflexivity|]. unfold fire_shift, shift_attr. cbn [shifts attrs].
    rewrite list_lookup_middle by reflexivity.
    cbn [shift_player shift_prop shift_by].
    rewrite lookup_insert_eq, insert_insert_eq, Hexact.
    split; [reflexivity|]. split; [reflexivity|].
    split; [reflexivity|]. intros _. apply insert_id, Hv.
Qed.

(** The edges of [shiftprop]: an attribute the player does not have raises
    [AttributeError] and nothing is made; with the duration 0 the shift
    stays and no delay is made; and two such shifts are the shift by their
    sum where the addition is associative at the value (whole numbers). *)
Theorem shiftprop_edges (player : Player) (prop : string) (a b : Num)
    (w : Props Num) :
  (forall duration,
      attrs w !! (player, prop) = None ->
      shiftprop add neg delay_call_runs player prop a duration w
      = Raised (Exception "AttributeError" prop) w) /\
  (forall value,
      attrs w !! (player, prop) = Some value ->
      shiftprop add neg delay_call_runs player prop a 0 w
      = Returned {| attrs := <[(player, prop) := add value a]> (attrs w);
                    shifts := shifts w |}) /\
  ((forall value,
       attrs w !! (player, prop) = Some value ->
       add (add value a) b = add value (add a b)) ->
   (shiftprop add neg delay_call_runs player prop a 0 w
    >>> shiftprop add neg delay_call_runs player prop b 0)
   = shiftprop add neg delay_call_runs player prop (add a b) 0 w).
Proof.
  unfold shiftprop, shift_attr. split; [|split].
  - intros duration Hnone. rewrite Hnone. reflexivity.
  - intros value Hv. rewrite Hv. reflexivity.
  - intros Hassoc.
    destruct (attrs w !! (player, prop)) as [value|] eqn:Hv; [|reflexivity].
    cbn [and_then Z.eqb negb attrs shifts].
    rewrite lookup_insert_eq, insert_insert_eq. cbn [and_then].
    rewrite (Hassoc value eq_refl). reflexivity.
Qed.

End ShiftingSpec.

(** ** The nearest player, and a wider radius *)
Section NearbyMore.

Context {Vector D : Type} (le : relation D) `{!RelDecision le} `{!EqDecision D}.
Context `{!Transitive le} `{!Total le}.
Variable get_distance : Vector -> Vector -> D.
Variable location : Player -> Vector.
Variable PlayerIter : string -> string -> list Z.
Variable get_player : Z -> Player.
Variable set_order : gset Player -> list Player.
Hypothesis set_order_elements : forall s, set_order s ≡ₚ elements s.

Lemma nearby_elem (point : Vector) (radius : D) (is_filters not_filters : string)
    (p : Player) :
  p ∈ fst (get_nearby_players le get_distance location PlayerIter get_player
             set_order point radius is_filters not_filters)
  <-> p ∈ map get_player (PlayerIter is_filters not_filters) /\
      le (get_distance point (location p)) radius.
Proof.
  rewrite get_nearby_players_unfold. cbn [fst].
  set (kept := list_to_set
                 (filter (fun q => le (get_distance point (location q)) radius)
                         (map get_player (PlayerIter is_filters not_filters)))
               : gset Player).
  assert (Hperm : map snd
                    (sort_keyed le
                       (map (keyed (fun q => get_distance point (location q)))
                            (set_order kept)))
                  ≡ₚ elements kept).
  { rewrite sorted_by_key_Permutation. apply set_order_elements. }
  rewrite Hperm, elem_of_elements. unfold kept.
  rewrite elem_of_list_to_set, list_elem_of_filter. tauto.
  Unshelve. all: first [exact set_order_elements | exact _].
Qed.

Lemma nearby_sorted (point : Vector) (radius : D)
    (is_filters not_filters : string) :
  StronglySorted
    (fun p q => le (get_distance point (location p))
                   (get_distance point (location q)))
    (fst (get_nearby_players le get_distance location PlayerIter get_player
            set_order point radius is_filters not_filters)).
Proof.
  rewrite get_nearby_players_unfold. cbn [fst].
  apply sorted_by_key_sorted; assumption.
  Unshelve. all: first [exact set_order_elements | exact _].
Qed.

(** The first player returned is a nearest one: a player of the pool within
    the radius, and no player of the pool within the radius is nearer. *)
Theorem nearest_player_first (point : Vector) (radius : D)
    (is_filters not_filters : string) (p : Player) (rest : list Player) :
  fst (get_nearby_players le get_distance location PlayerIter get_player
         set_order point radius is_filters not_filters) = p :: rest ->
  (p ∈ map get_player (PlayerIter is_filters not_filters) /\
   le (get_distance point (location p)) radius) /\
  (forall q,
      q ∈ map get_player (PlayerIter is_filters not_filters) ->
      le (get_distance point (location q)) radius ->
      le (get_distance point (location p)) (get_distance point (location q))).
Proof.
  intros Hresult.
  pose proof (nearby_sorted point radius is_filters not_filters) as Hsorted.
  rewrite Hresult in Hsorted. apply StronglySorted_inv in Hsorted as [_ Hhead].
  split.
  - apply nearby_elem. rewrite Hresult. left.
  - intros q Hq Hle.
    assert (Hin : q ∈ p :: rest)
      by (rewrite <- Hresult; apply nearby_elem; split; assumption).
    apply elem_of_cons in Hin as [-> | Hin].
    + destruct (total le (get_distance point (location p))
                  (get_distance point (location p))); assumption.
    + rewrite Forall_forall in Hhead. exact (Hhead q Hin).
Qed.

(** A wider radius loses no player. *)
Theorem wider_radius_keeps (point : Vector) (radius radius' : D)
    (is_filters not_filters : string) (p : Player) :
  le radius radius' ->
  p ∈ fst (get_nearby_players le get_distance location PlayerIter get_player
             set_order point radius is_filters not_filters) ->
  p ∈ fst (get_nearby_players le get_distance location PlayerIter get_player
             set_order point radius' is_filters not_filters).
Proof.
  intros Hwider. rewrite !nearby_elem. intros [Hpool Hle].
  split; [exact Hpool | etransitivity; eassumption].
Qed.

End NearbyMore.

(** ** The decorators of the hero classes *)
Section DecoratorsSpec.
Import Registry.

Variable mro : string -> list string.

Lemma decorator_append_to (attr : SetName) :
  decorator mro attr = append_to mro attr.
Proof. destruct attr; reflexivity. Qed.

Lemma first_own_insert_other (attr a : SetName) (cls : string) (v : list string)
    (classes : Classes) (l : list string) :
  a <> attr \/ cls ∉ l ->
  first_own a (<[(cls, attr) := v]> classes) l = first_own a classes l.
Proof.
  intros Hother. unfold Classes in *.
  induction l as [|c l IH]; [reflexivity|].
  cbn [first_own]; unfold Classes. rewrite lookup_insert_ne.
  - rewrite IH; [reflexivity|]. destruct Hother as [Ha | Hnot]; [left; exact Ha|].
    right. intros Hin. apply Hnot. right. exact Hin.
  - intros [= -> ->]. destruct Hother as [Ha | Hnot]; [congruence|].
    apply Hnot. left.
Qed.

Lemma first_own_insert_behind (attr : SetName) (cls : string) (v : list string)
    (classes : Classes) (pre post : list string) :
  first_own attr classes pre = None ->
  first_own attr (<[(cls, attr) := v]> classes) (pre ++ cls :: post) = Some v.
Proof.
  unfold Classes in *. induction pre as [|c pre IH]; intros Hnone.
  - cbn; unfold Classes. rewrite lookup_insert_eq. reflexivity.
  - cbn [app first_own] in *; unfold Classes in *.
    destruct (classes !! (c, attr)) as [w|] eqn:Hc; [discriminate|].
    destruct (decide (c = cls)) as [-> | Hne].
    + rewrite lookup_insert_eq. reflexivity.
    + rewrite lookup_insert_ne by congruence. rewrite Hc. apply IH, Hnone.
Qed.

Lemma decorator_all (attr : SetName) (cls : string) (bases ks : list string)
    (classes : Classes) (old : list string) :
  mro cls = cls :: bases ->
  class_getattr mro attr classes cls = Some old ->
  for_each (decorator mro attr cls) ks classes
  = Returned (match ks with
              | [] => classes
              | _ => <[(cls, attr) := old ++ ks]> classes
              end).
Proof.
  intros Hmro. rewrite decorator_append_to. unfold Classes in *.
  revert classes old. induction ks as [|k ks IH]; intros classes old Hold;
    [reflexivity|].
  cbn [for_each]. unfold append_to at 1. rewrite Hold. cbn [and_then].
  rewrite (IH _ (old ++ [k])).
  - destruct ks as [|k' ks]; [reflexivity|].
    unfold Classes. rewrite insert_insert_eq, <- app_assoc. reflexivity.
  - unfold class_getattr. rewrite Hmro. cbn [first_own]; unfold Classes.
    rewrite lookup_insert_eq. reflexivity.
Qed.

(** The skill classes decorated for a hero class end up at the end of its
    skill set (or passive set), in the order they were decorated in.  The
    other attribute, and the classes that do not derive from the hero
    class, its bases among them, are left as they were; a class that
    derives from it and holds no set of its own, no more than the classes
    before the hero class in its [__mro__], sees the new set. *)
Theorem decorators_append (attr : SetName) (cls : string)
    (bases ks : list string) (classes : Classes) (old : list string) :
  mro cls = cls :: bases ->
  class_getattr mro attr classes cls = Some old ->
  exists classes',
    for_each (decorator mro attr cls) ks classes = Returned classes' /\
    class_getattr mro attr classes' cls = Some (old ++ ks) /\
    (forall c a,
        a <> attr \/ cls ∉ mro c ->
        class_getattr mro a classes' c = class_getattr mro a classes c) /\
    (forall c pre post,
        ks <> [] -> mro c = pre ++ cls :: post ->
        first_own attr classes pre = None ->
        class_getattr mro attr classes' c = Some (old ++ ks)).
Proof.
  intros Hmro Hold. unfold Classes in *.
  eexists. split; [apply (decorator_all _ _ _ _ _ _ Hmro Hold)|].
  destruct ks as [|k ks].
  - rewrite app_nil_r. split; [exact Hold|]. split; [reflexivity|].
    intros c pre post Hks. contradiction.
  - split; [|split].
    + unfold class_getattr. rewrite Hmro. cbn [first_own]; unfold Classes.
      rewrite lookup_insert_eq. reflexivity.
    + intros c a Hother. apply first_own_insert_other, Hother.
    + intros c pre post _ Hc Hnone. unfold class_getattr. rewrite Hc.
      apply first_own_insert_behind, Hnone.
Qed.

End DecoratorsSpec.

(** ** Ignite *)
Section IgniteSpec.

Variable delay_call_runs : bool.
Variable PlayerIter : list string -> list Z.
Variable get_player : Z -> option Player.
Variable team : Player -> Z.

Lemma scheduled_delays_app k p (duration : Z) w :
  delays (scheduled k p duration w)
  = delays w ++ [mkDelay duration k (Some (p, length (delays w)))].
Proof.
  unfold scheduled. cbn.
  rewrite <- (Nat.add_0_r (length (delays w))) at 1.
  rewrite alter_app_r. reflexivity.
Qed.

Lemma burn_delays p (duration : Z) w :
  delays (burn delay_call_runs p duration w)
  = delays w ++ [mkDelay duration Burn (Some (p, length (delays w)))].
Proof.
  change (burn delay_call_runs p duration w)
    with (apply delay_call_runs Burn p duration w).
  rewrite apply_unfold. destruct (runs_now delay_call_runs Burn);
    rewrite ?expire_delays; apply scheduled_delays_app.
Qed.

Lemma burn_engine p (duration : Z) w :
  exists rest,
    engine (burn delay_call_runs p duration w)
    = engine w ++ CallInput p "Ignite" [] :: rest.
Proof.
  change (burn delay_call_runs p duration w)
    with (apply delay_call_runs Burn p duration w).
  rewrite apply_unfold. destruct (runs_now delay_call_runs Burn).
  - rewrite expire_engine, scheduled_engine, <- app_assoc. eexists. reflexivity.
  - rewrite scheduled_engine. eexists. reflexivity.
Qed.

Lemma burn_active_set p (duration : Z) w k' p' :
  delay_call_runs = false ->
  active_set k' p' w ⊆ active_set k' p' (burn delay_call_runs p duration w) /\
  active_set Burn p (burn delay_call_runs p duration w) <> ∅.
Proof.
  intros ->. change (burn false p duration w) with (scheduled Burn p duration w).
  split.
  - rewrite scheduled_active_sets.
    destruct (decide (k' = Burn /\ index p' = index p)) as [[-> Hidx]|_];
      [|reflexivity].
    unfold active_set. rewrite Hidx. set_solver.
  - rewrite scheduled_active_set. set_solver.
Qed.

(** The loop of [Ignite.on_spawn], from any game on. *)
Lemma burn_loop (level : Z) (userids : list Z) (g : TestHero.Game) :
  let targets := omap get_player userids in
  let g' :=
    fold_left
      (fun g userid =>
         match get_player userid with
         | Some target =>
             TestHero.tell target "You were burned!"
               {| TestHero.world := burn delay_call_runs target (2 + level)
                                      (TestHero.world g);
                  TestHero.chat := TestHero.chat g |}
         | None => g
         end) userids g in
  TestHero.chat g'
  = TestHero.chat g ++ map (fun t => (index t, "You were burned!"%string)) targets /\
  (exists made,
      delays (TestHero.world g') = delays (TestHero.world g) ++ made /\
      Forall2 (fun d t => callback d = Burn /\ seconds d = 2 + level /\
                          fst <$> args d = Some t) made targets) /\
  (exists done,
      engine (TestHero.world g') = engine (TestHero.world g) ++ done /\
      Forall (fun t => CallInput t "Ignite" [] ∈ done) targets) /\
  (delay_call_runs = false ->
   (forall k p, active_set k p (TestHero.world g)
                ⊆ active_set k p (TestHero.world g')) /\
   Forall (fun t => active_set Burn t (TestHero.world g') <> ∅) targets).
Proof.
  cbv zeta. revert g. induction userids as [|u userids IH]; intros g.
  - cbn. rewrite !app_nil_r. split; [reflexivity|].
    split; [exists []; rewrite app_nil_r; split; [reflexivity | constructor]|].
    split; [exists []; rewrite app_nil_r; split; [reflexivity | constructor]|].
    intros _. split; [reflexivity | constructor].
  - cbn [fold_left omap list_omap]. destruct (get_player u) as [t|]; [|apply IH].
    match goal with |- context [fold_left _ userids ?g1] =>
      destruct (IH g1) as (Hchat & (made & Hmade & Hall) & (done & Hdone & Hign) & Hsets)
    end.
    cbn [TestHero.tell TestHero.world TestHero.chat] in *.
    split; [|split; [|split]].
    + rewrite Hchat, <- app_assoc. reflexivity.
    + eexists. rewrite Hmade, burn_delays, <- app_assoc. split; [reflexivity|].
      constructor; [|exact Hall]. cbn. auto.
    + destruct (burn_engine t (2 + level) (TestHero.world g)) as (rest & Hrest).
      eexists. rewrite Hdone, Hrest, <- app_assoc. split; [reflexivity|].
      constructor.
      * cbn. left.
      * eapply Forall_impl; [exact Hign|]. intros t' Hin. cbn in Hin |- *.
        right. apply elem_of_app. right. exact Hin.
    + intros Hoff. destruct (Hsets Hoff) as [Hmono Hheld]. split.
      * intros k p. etransitivity; [|apply Hmono].
        apply (burn_active_set t (2 + level) (TestHero.world g) k p Hoff).
      * constructor; [|exact Hheld].
        destruct (burn_active_set t (2 + level) (TestHero.world g) Burn t Hoff)
          as [_ Hne].
        intros Hempty. apply Hne. specialize (Hmono Burn t).
        rewrite Hempty in Hmono. set_solver.
Qed.

(** [Ignite.on_spawn] of a learned skill (its level 1 or 2, the [max_level]
    of the class) burns every player [get_player] finds among the living
    players of the other team for 3 or 4 seconds, 2 more than the level: it
    makes one delay of [_unburn] for each, in order, ignites each, tells
    each that it was burned, and at the end tells the player.  When
    [delay()] runs nothing, each of them holds a timer afterwards. *)
Theorem Ignite_on_spawn_burns (self : Skill) (player : Player)
    (g : TestHero.Game) :
  1 <= Entity_level self <= 2 ->
  let targets :=
    omap get_player
         (PlayerIter ["alive"%string;
                      if team player =? 2 then "ct"%string else "t"%string]) in
  let g' := TestHero.Ignite_on_spawn delay_call_runs PlayerIter get_player team
              self player g in
  TestHero.chat g'
  = TestHero.chat g
    ++ map (fun t => (index t, "You were burned!"%string)) targets
    ++ [(index player, "You burned your enemies!"%string)] /\
  (exists made,
      delays (TestHero.world g') = delays (TestHero.world g) ++ made /\
      Forall2 (fun d t => callback d = Burn /\
                          seconds d = 2 + Entity_level self /\
                          3 <= seconds d <= 4 /\
                          fst <$> args d = Some t) made targets) /\
  Forall (fun t => CallInput t "Ignite" [] ∈ engine (TestHero.world g')) targets /\
  (delay_call_runs = false ->
   Forall (fun t => active_set Burn t (TestHero.world g') <> ∅) targets).
Proof.
  intros Hlevel. cbv zeta. unfold TestHero.Ignite_on_spawn.
  cbn [TestHero.tell TestHero.world TestHero.chat].
  match goal with |- context [fold_left _ ?us g] =>
    destruct (burn_loop (Entity_level self) us g)
      as (Hchat & (made & Hmade & Hall) & (done & Hdone & Hign) & Hsets)
  end.
  split; [|split; [|split]].
  - rewrite Hchat, <- app_assoc. reflexivity.
  - exists made. split; [exact Hmade|].
    eapply Forall2_impl; [exact Hall|]. intros d t (Hcb & Hsec & Harg).
    split; [exact Hcb|]. split; [exact Hsec|]. split; [lia | exact Harg].
  - rewrite Hdone. eapply Forall_impl; [exact Hign|]. intros t Hin.
    apply elem_of_app. right. exact Hin.
  - intros Hoff. apply (Hsets Hoff).
Qed.

End IgniteSpec.

(** ** Concrete cases of the further properties *)

(** A witness of [exp_setter_conserves]: of the 250 exp assigned to a fresh
    hero, 100 and 120 pay for two levels and 30 are left. *)
Lemma exp_setter_conserves_witness :
  let h := Hero_init "Hero" [] [] 0 0 in
  let self' := state_of (Hero_exp_set 10000 h 250) in
  let n := Hero_level self' - Hero_level h in
  (Hero_level h < 10000 /\ 0 <= 250 /\ 250 <> Hero_exp h /\
   Hero_level self' < 10000) /\
  0 <= n /\
  250 = Hero_exp self' + threshold_sum (Hero_level h) (Z.to_nat n) /\
  250 = Hero_exp self' + n * (100 + 20 * Hero_level h) + 10 * n * (n - 1).
Proof.
  intros h self' n.
  assert (H1 : Hero_level h < 10000) by reflexivity.
  assert (H2 : 0 <= 250) by discriminate.
  assert (H3 : 250 <> Hero_exp h) by discriminate.
  assert (Hrun : converts 10000 250 (Hero_level h) 30 2).
  { apply converts_step; [discriminate | reflexivity |].
    apply converts_step; [discriminate | reflexivity |].
    apply converts_stop. intros [Hge _]. apply Hge. reflexivity. }
  assert (H4 : Hero_level self' < 10000).
  { unfold self'. rewrite (Hero_exp_set_run 10000 h 250 30 2 H1 H2 H3 Hrun).
    reflexivity. }
  split; [repeat split; assumption|].
  exact (exp_setter_conserves 10000 h 250 H1 H2 H3 H4).
Defined.

(** A witness of [exp_grants_compose]: 150 exp and then 100 more, on a fresh
    hero. *)
Lemma exp_grants_compose_witness :
  let h := Hero_init "Hero" [] [] 0 0 in
  let h1 := state_of (Hero_exp_set 10000 h 150) in
  let h2 := state_of (Hero_exp_set 10000 h1 (Hero_exp h1 + 100)) in
  let h' := state_of (Hero_exp_set 10000 h (150 + 100)) in
  (Hero_level h < 10000 /\ 0 <= Hero_exp h < required_exp 10000 h /\
   0 <= 150 /\ 0 <= 100) /\
  Hero_level h2 = Hero_level h' /\ Hero_exp h2 = Hero_exp h'.
Proof.
  intros h h1 h2 h'.
  assert (H1 : Hero_level h < 10000) by reflexivity.
  assert (H2 : 0 <= Hero_exp h < required_exp 10000 h)
    by (split; [discriminate | reflexivity]).
  assert (H3 : 0 <= 150) by discriminate.
  assert (H4 : 0 <= 100) by discriminate.
  split; [repeat split; solve [assumption | apply H2]|].
  exact (exp_grants_compose 10000 h 150 100 H1 H2 H3 H4).
Defined.

(** A witness of [skill_level_costs]: a hero of level 3 puts two levels into
    [Ignite], of cost 1 and maximum level 2. *)
Lemma skill_level_costs_witness :
  let h := {| entity := Entity_init "TestHero1" 3; _exp := 0;
               skills := [Entity_init "Ignite" 0]; passives := []; items := [];
               e_level_up := [] |} in
  let cost := fun _ : string => 1 in
  (skills h !! 0%nat = Some (Entity_init "Ignite" 0) /\ 0 <= 2 <= 2) /\
  exists self',
    set_skill_level (fun _ => 2) 0 2 h = Returned self' /\
    skills self' !! 0%nat = Some {| cls_id := "Ignite"; _level := 2 |} /\
    skill_points cost self' = skill_points cost h - 1 * (2 - 0) /\
    entity self' = entity h /\ _exp self' = _exp h /\
    passives self' = passives h /\ items self' = items h /\
    e_level_up self' = e_level_up h.
Proof.
  intros h cost.
  assert (H1 : skills h !! 0%nat = Some (Entity_init "Ignite" 0)) by reflexivity.
  assert (H2 : 0 <= 2 <= 2) by (split; discriminate).
  split; [split; assumption|].
  exact (skill_level_costs cost (fun _ => 2) h 0 (Entity_init "Ignite" 0) 2 H1 H2).
Defined.

(** A witness of [shiftprop_restores]: 50 health for 5 seconds on a player
    of 100 health, a whole number, with a [delay()] that runs nothing. *)
Lemma shiftprop_restores_witness :
  let player := mkPlayer 1 1 in
  let w := {| attrs := {[ (player, "health"%string) := 100 ]}; shifts := [] |} in
  (attrs w !! (player, "health"%string) = Some 100 /\ 5 <> 0 /\
   100 + 50 + - 50 = 100) /\
  exists w1 w2,
    shiftprop Z.add Z.opp false player "health" 50 5 w = Returned w1 /\
    shifts w1 = shifts w ++ [mkShift 5 player "health" (- 50)] /\
    attrs w1 = <[(player, "health"%string) := 100 + 50]> (attrs w) /\
    fire_shift Z.add (length (shifts w)) w1 = Returned w2 /\
    shifts w2 = shifts w1 /\
    attrs w2 = <[(player, "health"%string) := 100]> (attrs w) /\
    (false = false -> attrs w2 = attrs w).
Proof.
  intros player w.
  assert (H1 : attrs w !! (player, "health"%string) = Some 100)
    by apply lookup_singleton_eq.
  assert (H2 : 5 <> 0) by discriminate.
  assert (H3 : 100 + 50 + - 50 = 100) by reflexivity.
  split; [repeat split; assumption|].
  exact (shiftprop_restores Z.add Z.opp false player "health" 50 5 100 w H1 H2 H3).
Defined.

(** A witness of [nearest_player_first]: of the three players of the
    example, the one 10 away comes first. *)
Lemma nearest_player_first_witness :
  (forall s : gset Player, elements s ≡ₚ elements s) /\
  fst (get_nearby_players Z.le example_distance example_location example_players
         example_player elements (0, 0, 0) 100 "alive" "")
  = example_player 3 :: [example_player 1] /\
  (example_player 3 ∈ map example_player (example_players "alive" "") /\
   example_distance (0, 0, 0) (example_location (example_player 3)) <= 100) /\
  (forall q,
      q ∈ map example_player (example_players "alive" "") ->
      example_distance (0, 0, 0) (example_location q) <= 100 ->
      example_distance (0, 0, 0) (example_location (example_player 3))
      <= example_distance (0, 0, 0) (example_location q)).
Proof.
  assert (Horder : forall s : gset Player, elements s ≡ₚ elements s)
    by (intros s; reflexivity).
  assert (Hresult : fst (get_nearby_players Z.le example_distance example_location
                           example_players example_player elements
                           (0, 0, 0) 100 "alive" "")
                    = example_player 3 :: [example_player 1])
    by (vm_compute; reflexivity).
  split; [exact Horder|]. split; [exact Hresult|].
  exact (nearest_player_first Z.le example_distance example_location
           example_players example_player elements Horder
           (0, 0, 0) 100 "alive" "" (example_player 3) [example_player 1]
           Hresult).
Defined.

(** A witness of [wider_radius_keeps]: the player 50 away, within 100 and so
    within 200. *)
Lemma wider_radius_keeps_witness :
  (forall s : gset Player, elements s ≡ₚ elements s) /\
  100 <= 200 /\
  example_player 1
  ∈ fst (get_nearby_players Z.le example_distance example_location example_players
           example_player elements (0, 0, 0) 100 "alive" "") /\
  example_player 1
  ∈ fst (get_nearby_players Z.le example_distance example_location example_players
           example_player elements (0, 0, 0) 200 "alive" "").
Proof.
  assert (Horder : forall s : gset Player, elements s ≡ₚ elements s)
    by (intros s; reflexivity).
  assert (Hwider : 100 <= 200) by discriminate.
  assert (Hin : example_player 1
                ∈ fst (get_nearby_players Z.le example_distance example_location
                         example_players example_player elements
                         (0, 0, 0) 100 "alive" "")).
  { replace (fst (get_nearby_players Z.le example_distance example_location
                    example_players example_player elements
                    (0, 0, 0) 100 "alive" ""))
      with [example_player 3; example_player 1] by (vm_compute; reflexivity).
    right. left. }
  split; [exact Horder|]. split; [exact Hwider|]. split; [exact Hin|].
  exact (wider_radius_keeps Z.le example_distance example_location
           example_players example_player elements Horder
           (0, 0, 0) 100 200 "alive" "" (example_player 1) Hwider Hin).
Defined.

(** A witness of [decorators_append]: the three skills of [TestHero1]. *)
Lemma decorators_append_witness :
  let ks := ["Damage"; "Ignite"; "Noclip"]%string in
  (TestHero.mro "TestHero1" = "TestHero1"%string :: ["Hero"; "Entity"; "object"]%string /\
   Registry.class_getattr TestHero.mro Registry.SkillSet TestHero.classes "TestHero1"
   = Some []) /\
  exists classes',
    for_each (Registry.decorator TestHero.mro Registry.SkillSet "TestHero1") ks
             TestHero.classes = Returned classes' /\
    Registry.class_getattr TestHero.mro Registry.SkillSet classes' "TestHero1"
    = Some ([] ++ ks) /\
    (forall c a,
        a <> Registry.SkillSet \/ "TestHero1"%string ∉ TestHero.mro c ->
        Registry.class_getattr TestHero.mro a classes' c
        = Registry.class_getattr TestHero.mro a TestHero.classes c) /\
    (forall c pre post,
        ks <> [] -> TestHero.mro c = pre ++ "TestHero1"%string :: post ->
        Registry.first_own Registry.SkillSet TestHero.classes pre = None ->
        Registry.class_getattr TestHero.mro Registry.SkillSet classes' c
        = Some ([] ++ ks)).
Proof.
  intros ks.
  assert (H1 : TestHero.mro "TestHero1"
               = "TestHero1"%string :: ["Hero"; "Entity"; "object"]%string)
    by reflexivity.
  assert (H2 : Registry.class_getattr TestHero.mro Registry.SkillSet
                 TestHero.classes "TestHero1" = Some [])
    by (vm_compute; reflexivity).
  split; [split; assumption|].
  exact (decorators_append TestHero.mro Registry.SkillSet "TestHero1"
           ["Hero"; "Entity"; "object"]%string ks TestHero.classes [] H1 H2).
Defined.

(** A witness of [Ignite_on_spawn_burns]: [Ignite] at level 1, with two
    players on the other team. *)
Lemma Ignite_on_spawn_burns_witness :
  let self := Entity_init "Ignite" 1 in
  let player := example_player 3 in
  let g := {| TestHero.world := empty_world; TestHero.chat := [] |} in
  let targets := [example_player 1; example_player 2] in
  let g' := TestHero.Ignite_on_spawn false (fun _ => [1; 2])
              (fun userid => Some (example_player userid)) (fun _ => 2)
              self player g in
  1 <= Entity_level self <= 2 /\
  TestHero.chat g'
  = TestHero.chat g
    ++ map (fun t => (index t, "You were burned!"%string)) targets
    ++ [(index player, "You burned your enemies!"%string)] /\
  (exists made,
      delays (TestHero.world g') = delays (TestHero.world g) ++ made /\
      Forall2 (fun d t => callback d = Burn /\
                          seconds d = 2 + Entity_level self /\
                          3 <= seconds d <= 4 /\
                          fst <$> args d = Some t) made targets) /\
  Forall (fun t => CallInput t "Ignite" [] ∈ engine (TestHero.world g')) targets /\
  (false = false ->
   Forall (fun t => active_set Burn t (TestHero.world g') <> ∅) targets).
Proof.
  intros self player g targets g'.
  assert (Hlevel : 1 <= Entity_level self <= 2) by (split; discriminate).
  split; [exact Hlevel|].
  exact (Ignite_on_spawn_burns false (fun _ => [1; 2])
           (fun userid => Some (example_player userid)) (fun _ => 2)
           self player g Hlevel).
Defined.


